(** * endpoints-operator: a shallow embedding of the reconciliation engine

    The operator keeps Kubernetes [Endpoints] objects in step with the nodes
    matched by a label selector.  Two program variants exist in the
    repository: the label-query variant ([main.go]) which discovers the
    services to manage from a label, and the static-mapping variant which
    takes them from command-line flags.  Both share [CreateOrUpdateEndpoints],
    [getNodeAddresses] and [nodeAddress] verbatim.

    Go values are modelled as follows: [string] is a byte string, [int32] is a
    [Z] that is only ever copied, a [map[K]V] is a [gmap], a slice is a
    [list], a [nil]-able [error] is an [option error], and a run-time panic
    (index out of range) is the [None] of the outer [option]. *)

From Stdlib Require Import ZArith.
From stdpp Require Import base option list strings pretty gmap.

(** ** Errors *)

(** [metav1.StatusReason], the part of it the operator can observe. *)
Inductive StatusReason :=
| StatusReasonUnknown
| StatusReasonNotFound
| StatusReasonAlreadyExists
| StatusReasonConflict
| StatusReasonInvalid
| StatusReasonInternalError.

(** Go's [error] values as they occur in the program: an API status error
    coming back from the client, an error made by [fmt.Errorf], and an error
    wrapped with a message by [errors.Wrap]/[errors.Wrapf]. *)
Inductive error :=
| StatusError (reason : StatusReason) (message : string)
| Errorf (msg : string)
| Wrap (cause : error) (msg : string).

(** The [Error()] method. *)
Fixpoint Error (e : error) : string :=
  match e with
  | StatusError _ message => message
  | Errorf msg => msg
  | Wrap cause msg => msg +:+ ": " +:+ Error cause
  end.

(** [apierrors.IsNotFound]: the reason of an API status error is inspected;
    anything else, [nil] included, is not a not-found error. *)
Definition IsNotFound (err : option error) : bool :=
  match err with
  | Some (StatusError StatusReasonNotFound _) => true
  | _ => false
  end.

(** ** Kubernetes objects *)

Record ObjectMeta := {
  Name : string;
  Namespace : string;
  UID : string;
  ResourceVersion : string;
  Labels : gmap string string;
  Annotations : gmap string string;
}.

(** [v1.NodeAddressType] is a string type with these two constants. *)
Definition NodeInternalIP : string := "InternalIP".
Definition NodeExternalIP : string := "ExternalIP".

(** The field [Type] is [Type_] here, [Type] being a keyword. *)
Record NodeAddress := {
  Type_ : string;
  Address : string;
}.

Record Node := {
  node_APIVersion : string;
  node_meta : ObjectMeta;
  node_Addresses : list NodeAddress;   (* Status.Addresses *)
}.

Record ObjectReference := {
  ref_Kind : string;
  ref_Name : string;
  ref_UID : string;
  ref_APIVersion : string;
}.

Record EndpointAddress := {
  IP : string;
  TargetRef : option ObjectReference;
}.

Record EndpointPort := {
  port_Name : string;
  port_Port : Z;
  port_Protocol : string;
}.

Record EndpointSubset := {
  Addresses : list EndpointAddress;
  Ports : list EndpointPort;
}.

Record Endpoints := {
  eps_meta : ObjectMeta;
  Subsets : list EndpointSubset;
}.

Record ServicePort := {
  sp_Name : string;
  sp_Protocol : string;
  sp_Port : Z;
  sp_NodePort : Z;
}.

Record ServiceObj := {
  svc_meta : ObjectMeta;
  svc_Ports : list ServicePort;        (* Spec.Ports *)
}.

(** ** Node address selection *)

(** The map built by the first loop of [nodeAddress]:
    [m[a.Type] = append(m[a.Type], a.Address)]. A missing key reads as the
    nil slice. *)
Definition addrMapStep (m : gmap string (list string)) (a : NodeAddress)
  : gmap string (list string) :=
  <[Type_ a := default [] (m !! Type_ a) ++ [Address a]]> m.

Definition addrMap (addrs : list NodeAddress) : gmap string (list string) :=
  foldl addrMapStep ∅ addrs.

(** [nodeAddress] returns the triple (address, map, error); the indexing
    [addresses[0]] panics on an empty slice, which is the outer [None]. *)
Definition nodeAddress (node : Node)
  : option (string * gmap string (list string) * option error) :=
  let m := addrMap (node_Addresses node) in
  match m !! NodeInternalIP with
  | Some addresses =>
      a0 ← addresses !! 0%nat; Some (a0, m, None)
  | None =>
      match m !! NodeExternalIP with
      | Some addresses =>
          a0 ← addresses !! 0%nat; Some (a0, m, None)
      | None => Some ("", m, Some (Errorf "host address unknown"))
      end
  end.

(** The error appended by [getNodeAddresses] for a node without address. *)
Definition nodeError (n : Node) (err : error) : error :=
  Wrap err ("failed to determine hostname for node (" +:+ Name (node_meta n) +:+ ")").

Definition nodeEndpointAddress (n : Node) (address : string) : EndpointAddress :=
  {| IP := address;
     TargetRef := Some {| ref_Kind := "Node";
                          ref_Name := Name (node_meta n);
                          ref_UID := UID (node_meta n);
                          ref_APIVersion := node_APIVersion n |} |}.

(** The loop of [getNodeAddresses], with its two accumulators. *)
Fixpoint getNodeAddresses_loop (items : list Node)
    (addresses : list EndpointAddress) (errs : list error)
  : option (list EndpointAddress * list error) :=
  match items with
  | [] => Some (addresses, errs)
  | n :: rest =>
      match nodeAddress n with
      | None => None
      | Some (_, _, Some err) =>
          getNodeAddresses_loop rest addresses (errs ++ [nodeError n err])
      | Some (address, _, None) =>
          getNodeAddresses_loop rest
            (addresses ++ [nodeEndpointAddress n address]) errs
      end
  end.

Definition getNodeAddresses (nodes : list Node)
  : option (list EndpointAddress * list error) :=
  getNodeAddresses_loop nodes [] [].

(** The addresses of a node that carry a given type, in declaration order. *)
Definition addressesOfType (t : string) (n : Node) : list string :=
  Address <$> filter (λ a, Type_ a = t) (node_Addresses n).

Definition hasNoAddress (n : Node) : Prop :=
  addressesOfType NodeInternalIP n = [] ∧ addressesOfType NodeExternalIP n = [].

Global Instance hasNoAddress_dec n : Decision (hasNoAddress n).
Proof. unfold hasNoAddress. apply _. Defined.

(** ** The API client and the world the program runs in *)

(** A Go call returning [(value, err)]: either the value or the error. *)
Inductive result (A : Type) :=
| Ok (a : A)
| Err (e : error).
Arguments Ok {A} a.
Arguments Err {A} e.

Definition errOf {A} (r : result A) : option error :=
  match r with Ok _ => None | Err e => Some e end.

Definition valOf {A} (r : result A) : option A :=
  match r with Ok a => Some a | Err _ => None end.

(** [corev1client.CoreV1Interface], restricted to the calls the operator
    makes.  The client is an interface in the source, so nothing is assumed
    about an implementation: every call may fail and may change the state
    [σ] behind the interface.  A namespaced sub-client such as
    [kubeClient.Endpoints(ns)] is the namespace argument. Records are passed
    to the client by value: a client does not write to the object it is
    given. *)
Class CoreV1Interface (σ : Type) := {
  Services_List : string → string → σ → result (list ServiceObj) * σ;
  Services_Get : string → string → σ → result ServiceObj * σ;
  Nodes_List : string → σ → result (list Node) * σ;
  Endpoints_Get : string → string → σ → result Endpoints * σ;
  Endpoints_Create : string → Endpoints → σ → result Endpoints * σ;
  Endpoints_Update : string → Endpoints → σ → result Endpoints * σ;
}.

(** What the program asked of the client, for the trace. *)
Inductive Call :=
| CallServicesList (namespace labelSelector : string)
| CallServicesGet (namespace name : string)
| CallNodesList (labelSelector : string)
| CallEndpointsGet (namespace name : string)
| CallEndpointsCreate (namespace : string) (eps : Endpoints)
| CallEndpointsUpdate (namespace : string) (eps : Endpoints).

(** A call together with the error it came back with ([None] on success). *)
Definition Event : Type := Call * option error.

Inductive Level := DebugLevel | WarnLevel | ErrorLevel.

Definition LogEntry : Type := Level * string.

Record World (σ : Type) := mkWorld {
  cluster : σ;
  calls : list Event;
  logs : list LogEntry;
}.
Arguments mkWorld {σ} _ _ _.
Arguments cluster {σ} _.
Arguments calls {σ} _.
Arguments logs {σ} _.

(** Computations of the program: they read and write the world, and may
    panic ([None]). *)
Definition M (σ A : Type) : Type := World σ → option (A * World σ).

Global Instance M_ret σ : MRet (M σ) := λ A a w, Some (a, w).
Global Instance M_bind σ : MBind (M σ) := λ A B f m w,
  match m w with
  | Some (a, w') => f a w'
  | None => None
  end.

(** A pure computation that may panic, run inside [M]. *)
Definition liftGo {σ A} (o : option A) : M σ A := λ w,
  match o with Some a => Some (a, w) | None => None end.

Definition logrus {σ} (lvl : Level) (msg : string) : M σ unit := λ w,
  Some ((), mkWorld (cluster w) (calls w) (logs w ++ [(lvl, msg)])).

(** Runs a client call against the cluster and appends it to the trace. *)
Definition invoke {σ A} (c : Call) (f : σ → result A * σ) : M σ (result A) := λ w,
  let '(r, c') := f (cluster w) in
  Some (r, mkWorld c' (calls w ++ [(c, errOf r)]) (logs w)).

Section Operator.
Context {σ : Type} `{!CoreV1Interface σ}.

Definition kubeServicesList (namespace labelSelector : string) : M σ (result (list ServiceObj)) :=
  invoke (CallServicesList namespace labelSelector) (Services_List namespace labelSelector).
Definition kubeServicesGet (namespace name : string) : M σ (result ServiceObj) :=
  invoke (CallServicesGet namespace name) (Services_Get namespace name).
Definition kubeNodesList (labelSelector : string) : M σ (result (list Node)) :=
  invoke (CallNodesList labelSelector) (Nodes_List labelSelector).
Definition kubeEndpointsGet (namespace name : string) : M σ (result Endpoints) :=
  invoke (CallEndpointsGet namespace name) (Endpoints_Get namespace name).
Definition kubeEndpointsCreate (namespace : string) (eps : Endpoints) : M σ (result Endpoints) :=
  invoke (CallEndpointsCreate namespace eps) (Endpoints_Create namespace eps).
Definition kubeEndpointsUpdate (namespace : string) (eps : Endpoints) : M σ (result Endpoints) :=
  invoke (CallEndpointsUpdate namespace eps) (Endpoints_Update namespace eps).

(** [eps.ResourceVersion = v] *)
Definition setResourceVersion (v : string) (eps : Endpoints) : Endpoints :=
  {| eps_meta := {| Name := Name (eps_meta eps);
                    Namespace := Namespace (eps_meta eps);
                    UID := UID (eps_meta eps);
                    ResourceVersion := v;
                    Labels := Labels (eps_meta eps);
                    Annotations := Annotations (eps_meta eps) |};
     Subsets := Subsets eps |}.

(** [errors.Wrap(err, message)]; it returns nil when [err] is nil. *)
Definition errorsWrap (err : option error) (message : string) : option error :=
  (λ e, Wrap e message) <$> err.

(** [CreateOrUpdateEndpoints(eclient, eps)].  [eps] is a pointer in the
    source and the function writes through it, so the value the pointer
    holds when the function returns is returned next to the error.  The
    pair [(endpoints, err)] returned by [Get] holds the object or the error;
    reading [endpoints.ResourceVersion] through a nil pointer would panic. *)
Definition CreateOrUpdateEndpoints (eclient : string) (eps : Endpoints)
  : M σ (option error * Endpoints) :=
  r ← kubeEndpointsGet eclient (Name (eps_meta eps));
  let endpoints := valOf r in
  let err := errOf r in
  if bool_decide (is_Some err) && negb (IsNotFound err) then
    mret (errorsWrap err "retrieving existing kubelet endpoints object failed", eps)
  else if IsNotFound err then
    r' ← kubeEndpointsCreate eclient eps;
    let err := errOf r' in
    if bool_decide (is_Some err) then
      mret (errorsWrap err "creating kubelet endpoints object failed", eps)
    else mret (None, eps)
  else
    endpoints ← liftGo endpoints;
    let eps := setResourceVersion (ResourceVersion (eps_meta endpoints)) eps in
    r' ← kubeEndpointsUpdate eclient eps;
    let err := errOf r' in
    if bool_decide (is_Some err) then
      mret (errorsWrap err "updating kubelet endpoints object failed", eps)
    else mret (None, eps).

(** [eps.Subsets[0] = f(eps.Subsets[0])]; indexing an empty slice panics. *)
Definition updSubset0 (f : EndpointSubset → EndpointSubset) (eps : Endpoints)
  : option Endpoints :=
  s ← Subsets eps !! 0%nat;
  Some {| eps_meta := eps_meta eps; Subsets := <[0%nat := f s]> (Subsets eps) |}.

Definition appendPort (port : ServicePort) (s : EndpointSubset) : EndpointSubset :=
  {| Addresses := Addresses s;
     Ports := Ports s ++ [{| port_Name := sp_Name port;
                             port_Port := sp_Port port;
                             port_Protocol := "" |}] |}.

(** [for _, port := range service.Spec.Ports { eps.Subsets[0].Ports = append(...) }] *)
Fixpoint appendPorts (ports : list ServicePort) (eps : Endpoints) : option Endpoints :=
  match ports with
  | [] => Some eps
  | port :: rest => eps' ← updSubset0 (appendPort port) eps; appendPorts rest eps'
  end.

Definition setAddresses (addresses : list EndpointAddress) (s : EndpointSubset)
  : EndpointSubset :=
  {| Addresses := addresses; Ports := Ports s |}.

(** [for _, err := range errs { logrus.Warnf(...) }] *)
Fixpoint warnAll (errs : list error) : M σ unit :=
  match errs with
  | [] => mret ()
  | err :: rest =>
      _ ← logrus WarnLevel ("error getting node address: " +:+ Error err);
      warnAll rest
  end.

(** The part of [syncNodeEndpoints] that follows the fetch of the service;
    it is the same text in both variants, which differ in how the service
    and the selector are named. *)
Definition syncService (service : ServiceObj) (nodeSelector : string)
  : M σ (option error) :=
  let eps := {| eps_meta := {| Name := Name (svc_meta service);
                               Namespace := ""; UID := ""; ResourceVersion := "";
                               Labels := Labels (svc_meta service);
                               Annotations := ∅ |};
                Subsets := [ {| Addresses := []; Ports := [] |} ] |} in
  eps ← liftGo (appendPorts (svc_Ports service) eps);
  r ← kubeNodesList nodeSelector;
  match r with
  | Err err => mret (Some (Wrap err "listing nodes failed"))
  | Ok nodes =>
      '(addresses, errs) ← liftGo (getNodeAddresses nodes);
      _ ← (if bool_decide (0 < length errs) then warnAll errs else mret ());
      eps ← liftGo (updSubset0 (setAddresses addresses) eps);
      '(err, _) ← CreateOrUpdateEndpoints (Namespace (svc_meta service)) eps;
      if bool_decide (is_Some err) then
        mret (errorsWrap err "synchronizing kubelet endpoints object failed")
      else mret None
  end.

End Operator.

(** ** Variant 1: services found by label ([main.go]) *)

Module LabelQuery.
Section LabelQuery.
Context {σ : Type} `{!CoreV1Interface σ}.

Definition syncNodeEndpoints (namespace svc nodeSelector : string) : M σ (option error) :=
  _ ← logrus DebugLevel ("starting sync of " +:+ svc);
  r ← kubeServicesGet namespace svc;
  match r with
  | Err err => mret (Some err)
  | Ok service => syncService service nodeSelector
  end.

(** [labels.Set(endpointsSyncEnabledService.MatchLabels).String()] *)
Definition endpointsSyncEnabledService : string :=
  "endpoints-operator.fnox.se/enabled=true".

Definition nodeSelectorLabel : string := "endpoints-operator.fnox.se/node-selector".

Fixpoint syncAndLog_loop (items : list ServiceObj) : M σ unit :=
  match items with
  | [] => mret ()
  | svc :: rest =>
      match Annotations (svc_meta svc) !! nodeSelectorLabel with
      | None =>
          _ ← logrus ErrorLevel ("missing " +:+ nodeSelectorLabel +:+ " label on service "
                                 +:+ Name (svc_meta svc));
          syncAndLog_loop rest
      | Some nodeSelector =>
          err ← syncNodeEndpoints (Namespace (svc_meta svc)) (Name (svc_meta svc)) nodeSelector;
          _ ← match err with
              | Some err => logrus ErrorLevel (Error err)
              | None => mret ()
              end;
          syncAndLog_loop rest
      end
  end.

Definition syncAndLog : M σ unit :=
  r ← kubeServicesList "" endpointsSyncEnabledService;
  match r with
  | Err err => logrus ErrorLevel (Error err)
  | Ok servicesToCheck => syncAndLog_loop servicesToCheck
  end.

End LabelQuery.
End LabelQuery.

(** ** Variant 2: services named by flags (static mapping) *)

(** [strings.Split(s, sep)] for a separator of one byte, the only use the
    program makes of it ([sep = "/"]): the pieces of [s] between successive
    occurrences of [sep]; a string without separator is its own single
    piece, the empty string included. *)
Fixpoint Split (s : string) (sep : Ascii.ascii) : list string :=
  match s with
  | EmptyString => [EmptyString]
  | String c rest =>
      if decide (c = sep) then EmptyString :: Split rest sep
      else match Split rest sep with
           | [] => [String c EmptyString]
           | piece :: pieces => String c piece :: pieces
           end
  end.

Definition slash : Ascii.ascii := Ascii.ascii_of_nat 47.
Definition dquote : string := String (Ascii.ascii_of_nat 34) EmptyString.

Module StaticMapping.

Record Service := {
  NodeLabelSelector : string;
  service : string;
  Name : string;
}.

(** The methods [Namespace()] and [Service()], the latter as [Service_]
    next to the type of the same name; [parts[i]] panics when [i] is out of
    range. *)
Definition Namespace (s : Service) : option string :=
  let parts := Split (service s) slash in
  parts !! 0%nat.

Definition Service_ (s : Service) : option string :=
  let parts := Split (service s) slash in
  parts !! 1%nat.

(** The package variable [serviceList] as initialised. *)
Definition serviceList : list Service :=
  [ {| NodeLabelSelector := ""; service := ""; Name := "scheduler" |};
    {| NodeLabelSelector := ""; service := ""; Name := "controller-manager" |} ].

(** [flag.StringVar] for the two flags of each role followed by
    [flag.Parse()]: each field receives the value given on the command line
    for its flag, or the default [""].  The command line is the finite map
    from flag names to the values given. *)
Definition parseFlags (args : gmap string string) (l : list Service) : list Service :=
  (λ v, {| NodeLabelSelector := default "" (args !! (Name v +:+ "-node-label"));
           service := default "" (args !! (Name v +:+ "-service"));
           Name := Name v |}) <$> l.

(** The validation loop of [main]: [Some msg] when it logs and returns. *)
Fixpoint checkServices (l : list Service) : option string :=
  match l with
  | [] => None
  | v :: rest =>
      if decide (service v = "") then checkServices rest
      else
        let parts := Split (service v) slash in
        if decide (length parts ≠ 2%nat) then
          Some ("malformatted kubelet object string " +:+ service v
                +:+ ", must be in format " +:+ dquote +:+ "namespace/name" +:+ dquote)
        else checkServices rest
  end.

(** What [main] does, in order, after the flags are parsed. *)
Inductive MainStep :=
| LogErrorf (msg : string)
| GetKubeClient
| ListenAndServe
| PeriodicSyncer (services : list Service)
| WaitShutdown.

Definition main (args : gmap string string) : list MainStep :=
  let serviceList := parseFlags args serviceList in
  match checkServices serviceList with
  | Some msg => [LogErrorf msg]
  | None => [GetKubeClient; ListenAndServe; PeriodicSyncer serviceList; WaitShutdown]
  end.

Section StaticMapping.
Context {σ : Type} `{!CoreV1Interface σ}.

Definition syncNodeEndpoints (svc : Service) : M σ (option error) :=
  _ ← logrus DebugLevel ("starting sync of " +:+ Name svc);
  namespace ← liftGo (Namespace svc);
  name ← liftGo (Service_ svc);
  r ← kubeServicesGet namespace name;
  match r with
  | Err err => mret (Some err)
  | Ok service => syncService service (NodeLabelSelector svc)
  end.

Fixpoint syncAndLog (serviceList : list Service) : M σ unit :=
  match serviceList with
  | [] => mret ()
  | svc :: rest =>
      if decide (service svc = "") then syncAndLog rest
      else
        err ← syncNodeEndpoints svc;
        _ ← match err with
            | Some err => logrus ErrorLevel (Error err)
            | None => mret ()
            end;
        syncAndLog rest
  end.

End StaticMapping.
End StaticMapping.

(** ** The scheduler *)

(** [time.Duration] counts nanoseconds. *)
Definition Second : Z := 1000000000.
Definition Minute : Z := 60 * Second.
Definition tickInterval : Z := 2 * Minute.

(** Where the goroutine running [periodicSyncer] stands. *)
Inductive Pc :=
| AtEntry                (* about to make the first call of syncAndLog *)
| InSync (first : bool)  (* inside syncAndLog *)
| AtNewTicker            (* first call returned, ticker not yet made *)
| AtSelect               (* at the select statement *)
| Done.                  (* returned; the deferred ticker.Stop() has run *)

Record Sched (σ : Type) := mkSched {
  pc : Pc;
  world : World σ;
  now : Z;                 (* nanoseconds since the goroutine started *)
  stopc : bool;            (* the stop channel is closed *)
  ticker : option Z;       (* the time of the next tick of a running ticker *)
  tickC : bool;            (* the ticker channel, capacity 1, holds a tick *)
}.
Arguments mkSched {σ} _ _ _ _ _ _.
Arguments pc {σ} _.
Arguments world {σ} _.
Arguments now {σ} _.
Arguments stopc {σ} _.
Arguments ticker {σ} _.
Arguments tickC {σ} _.

Inductive Label :=
| CycleBegin             (* syncAndLog() is called *)
| CycleEnd               (* syncAndLog() returns *)
| NewTicker
| Return
| EnvStop                (* the stop signal arrives *)
| EnvAdvance (d : Z)     (* time passes *)
| EnvTick.               (* the ticker fires *)

Section Scheduler.
Context {σ : Type} (syncAndLog : M σ unit).

Definition initSched (w : World σ) : Sched σ :=
  mkSched AtEntry w 0 false None false.

(** One step of the goroutine or of its environment.  A [select] may take
    any case whose channel is ready; a tick that finds the channel full is
    dropped; time does not pass over a tick that is due. *)
Inductive step : Sched σ → Label → Sched σ → Prop :=
| step_first s :
    pc s = AtEntry →
    step s CycleBegin (mkSched (InSync true) (world s) (now s) (stopc s) (ticker s) (tickC s))
| step_end s first w' :
    pc s = InSync first →
    syncAndLog (world s) = Some ((), w') →
    step s CycleEnd
      (mkSched (if first then AtNewTicker else AtSelect) w' (now s) (stopc s) (ticker s) (tickC s))
| step_newticker s :
    pc s = AtNewTicker →
    step s NewTicker
      (mkSched AtSelect (world s) (now s) (stopc s) (Some (now s + tickInterval)%Z) (tickC s))
| step_select_stop s :
    pc s = AtSelect → stopc s = true →
    step s Return (mkSched Done (world s) (now s) (stopc s) None (tickC s))
| step_select_tick s :
    pc s = AtSelect → tickC s = true →
    step s CycleBegin (mkSched (InSync false) (world s) (now s) (stopc s) (ticker s) false)
| step_stop s :
    step s EnvStop (mkSched (pc s) (world s) (now s) true (ticker s) (tickC s))
| step_advance s d :
    (0 < d)%Z →
    (∀ t, ticker s = Some t → (now s + d ≤ t)%Z) →
    step s (EnvAdvance d) (mkSched (pc s) (world s) (now s + d)%Z (stopc s) (ticker s) (tickC s))
| step_tick s t :
    ticker s = Some t → now s = t →
    step s EnvTick
      (mkSched (pc s) (world s) (now s) (stopc s) (Some (t + tickInterval)%Z) true).

(** Runs: the labels of a sequence of steps, oldest first. *)
Inductive run (s : Sched σ) : list Label → Sched σ → Prop :=
| run_nil : run s [] s
| run_snoc tr s' l s'' : run s tr s' → step s' l s'' → run s (tr ++ [l]) s''.

Definition reachable (w : World σ) (s : Sched σ) : Prop :=
  ∃ tr, run (initSched w) tr s.

End Scheduler.

(** ** The backing store as the operator's environment *)

(** What the operator relies on from the cluster behind the client when it
    reconciles one service: the cluster has services, nodes per selector and
    stored endpoints; reads change none of them and answer from them; a
    write of an endpoints object that succeeds stores its subsets and
    leaves services and nodes alone.  Calls may still fail at will. *)
Class ClusterModel (σ : Type) `{!CoreV1Interface σ} := {
  servicesOf : σ → string → string → option ServiceObj;
  nodesOf : σ → string → list Node;
  endpointsOf : σ → string → string → option Endpoints;
  Services_Get_model ns n c :
    servicesOf (Services_Get ns n c).2 = servicesOf c ∧
    nodesOf (Services_Get ns n c).2 = nodesOf c ∧
    endpointsOf (Services_Get ns n c).2 = endpointsOf c ∧
    ∀ s, (Services_Get ns n c).1 = Ok s → servicesOf c ns n = Some s;
  Nodes_List_model sel c :
    servicesOf (Nodes_List sel c).2 = servicesOf c ∧
    nodesOf (Nodes_List sel c).2 = nodesOf c ∧
    endpointsOf (Nodes_List sel c).2 = endpointsOf c ∧
    ∀ l, (Nodes_List sel c).1 = Ok l → nodesOf c sel = l;
  Endpoints_Get_model ns n c :
    servicesOf (Endpoints_Get ns n c).2 = servicesOf c ∧
    nodesOf (Endpoints_Get ns n c).2 = nodesOf c ∧
    endpointsOf (Endpoints_Get ns n c).2 = endpointsOf c ∧
    match (Endpoints_Get ns n c).1 with
    | Ok e => endpointsOf c ns n = Some e
    | Err err => IsNotFound (Some err) = true → endpointsOf c ns n = None
    end;
  Endpoints_Create_model ns e c :
    servicesOf (Endpoints_Create ns e c).2 = servicesOf c ∧
    nodesOf (Endpoints_Create ns e c).2 = nodesOf c ∧
    ∀ r, (Endpoints_Create ns e c).1 = Ok r →
      ∃ e', endpointsOf (Endpoints_Create ns e c).2 ns (Name (eps_meta e)) = Some e'
            ∧ Subsets e' = Subsets e;
  Endpoints_Update_model ns e c :
    servicesOf (Endpoints_Update ns e c).2 = servicesOf c ∧
    nodesOf (Endpoints_Update ns e c).2 = nodesOf c ∧
    ∀ r, (Endpoints_Update ns e c).1 = Ok r →
      ∃ e', endpointsOf (Endpoints_Update ns e c).2 ns (Name (eps_meta e)) = Some e'
            ∧ Subsets e' = Subsets e;
}.

(** A reference cluster held in memory: objects keyed by namespace and
    name, a version counter advanced by every write, equality selectors
    [key=value], and the API server's rules for create (no version token, no
    existing object) and update (existing object, token empty or current). *)
Record FakeCluster := mkFake {
  fc_services : gmap (string * string) ServiceObj;
  fc_nodes : list Node;
  fc_endpoints : gmap (string * string) Endpoints;
  fc_version : N;
}.

Definition notFound (kind name : string) : error :=
  StatusError StatusReasonNotFound (kind +:+ " '" +:+ name +:+ "' not found").

Definition equals : Ascii.ascii := Ascii.ascii_of_nat 61.

(** An equality selector applied to a label set; [None] when it does not
    parse. *)
Definition matchSelector (sel : string) (labels : gmap string string) : option bool :=
  match Split sel equals with
  | [k; v] => Some (bool_decide (labels !! k = Some v))
  | _ => None
  end.

Definition badSelector (sel : string) : error :=
  StatusError StatusReasonInvalid ("unable to parse requirement: " +:+ sel).

Definition fake_Services_List (ns sel : string) (c : FakeCluster)
  : result (list ServiceObj) * FakeCluster :=
  match matchSelector sel ∅ with
  | None => (Err (badSelector sel), c)
  | Some _ =>
      (Ok (filter (λ s, matchSelector sel (Labels (svc_meta s)) = Some true
                        ∧ (ns = "" ∨ Namespace (svc_meta s) = ns))
                  ((map_to_list (fc_services c)).*2)), c)
  end.

Definition fake_Services_Get (ns n : string) (c : FakeCluster)
  : result ServiceObj * FakeCluster :=
  match fc_services c !! (ns, n) with
  | Some s => (Ok s, c)
  | None => (Err (notFound "services" n), c)
  end.

Definition fake_Nodes_List (sel : string) (c : FakeCluster)
  : result (list Node) * FakeCluster :=
  match matchSelector sel ∅ with
  | None => (Err (badSelector sel), c)
  | Some _ =>
      (Ok (filter (λ n, matchSelector sel (Labels (node_meta n)) = Some true)
                  (fc_nodes c)), c)
  end.

Definition fake_Endpoints_Get (ns n : string) (c : FakeCluster)
  : result Endpoints * FakeCluster :=
  match fc_endpoints c !! (ns, n) with
  | Some e => (Ok e, c)
  | None => (Err (notFound "endpoints" n), c)
  end.

(** The object as the store keeps it: namespaced, with a fresh token. *)
Definition stamp (ns : string) (v : N) (e : Endpoints) : Endpoints :=
  {| eps_meta := {| Name := Name (eps_meta e);
                    Namespace := ns;
                    UID := UID (eps_meta e);
                    ResourceVersion := pretty v;
                    Labels := Labels (eps_meta e);
                    Annotations := Annotations (eps_meta e) |};
     Subsets := Subsets e |}.

Definition fake_store (ns : string) (e : Endpoints) (c : FakeCluster)
  : result Endpoints * FakeCluster :=
  let v := (fc_version c + 1)%N in
  let e' := stamp ns v e in
  (Ok e', mkFake (fc_services c) (fc_nodes c)
                 (<[(ns, Name (eps_meta e)) := e']> (fc_endpoints c)) v).

Definition fake_Endpoints_Create (ns : string) (e : Endpoints) (c : FakeCluster)
  : result Endpoints * FakeCluster :=
  if decide (ResourceVersion (eps_meta e) ≠ "") then
    (Err (StatusError StatusReasonInvalid
            "resourceVersion should not be set on objects to be created"), c)
  else
    match fc_endpoints c !! (ns, Name (eps_meta e)) with
    | Some _ =>
        (Err (StatusError StatusReasonAlreadyExists
                ("endpoints '" +:+ Name (eps_meta e) +:+ "' already exists")), c)
    | None => fake_store ns e c
    end.

Definition fake_Endpoints_Update (ns : string) (e : Endpoints) (c : FakeCluster)
  : result Endpoints * FakeCluster :=
  match fc_endpoints c !! (ns, Name (eps_meta e)) with
  | None => (Err (notFound "endpoints" (Name (eps_meta e))), c)
  | Some old =>
      if decide (ResourceVersion (eps_meta e) ≠ ""
                 ∧ ResourceVersion (eps_meta e) ≠ ResourceVersion (eps_meta old)) then
        (Err (StatusError StatusReasonConflict
                "the object has been modified; please apply your changes to the latest version and try again"), c)
      else fake_store ns e c
  end.

Global Instance fakeClient : CoreV1Interface FakeCluster := {|
  Services_List := fake_Services_List;
  Services_Get := fake_Services_Get;
  Nodes_List := fake_Nodes_List;
  Endpoints_Get := fake_Endpoints_Get;
  Endpoints_Create := fake_Endpoints_Create;
  Endpoints_Update := fake_Endpoints_Update;
|}.

Definition fake_nodesOf (c : FakeCluster) (sel : string) : list Node :=
  filter (λ n, matchSelector sel (Labels (node_meta n)) = Some true) (fc_nodes c).

Global Program Instance fakeModel : ClusterModel FakeCluster := {|
  servicesOf c ns n := fc_services c !! (ns, n);
  nodesOf := fake_nodesOf;
  endpointsOf c ns n := fc_endpoints c !! (ns, n);
|}.
Next Obligation.
  intros ns n c. simpl. unfold fake_Services_Get.
  destruct (fc_services c !! (ns, n)) eqn:E; simpl; repeat split; congruence.
Qed.
Next Obligation.
  intros sel c. simpl. unfold fake_Nodes_List.
  destruct (matchSelector sel ∅); simpl; repeat split; try congruence.
  intros l [= <-]. done.
Qed.
Next Obligation.
  intros ns n c. simpl. unfold fake_Endpoints_Get.
  destruct (fc_endpoints c !! (ns, n)) eqn:E; simpl; repeat split; congruence.
Qed.
Next Obligation.
  intros ns e c. simpl. unfold fake_Endpoints_Create.
  destruct (decide _); simpl; [repeat split; congruence|].
  destruct (fc_endpoints c !! _); simpl; repeat split; try congruence.
  intros _ _. eexists. rewrite lookup_insert_eq. done.
Qed.
Next Obligation.
  intros ns e c. simpl. unfold fake_Endpoints_Update.
  destruct (fc_endpoints c !! _); simpl; [|repeat split; congruence].
  destruct (decide _); simpl; repeat split; try congruence.
  intros _ _. eexists. rewrite lookup_insert_eq. done.
Qed.

(** ** The resolver and the builder as the specification words them *)

(** Address selection by priority: the first internal address, else the
    first external address, else none. *)
Definition spec_selectAddress (n : Node) : option string :=
  match addressesOfType NodeInternalIP n with
  | a :: _ => Some a
  | [] =>
      match addressesOfType NodeExternalIP n with
      | a :: _ => Some a
      | [] => None
      end
  end.

(** The entry a machine contributes to the resolved address list. *)
Definition spec_resolved (n : Node) : option EndpointAddress :=
  nodeEndpointAddress n <$> spec_selectAddress n.

(** The per-node error a machine contributes to the error list. *)
Definition spec_rejected (n : Node) : option error :=
  match spec_selectAddress n with
  | Some _ => None
  | None => Some (nodeError n (Errorf "host address unknown"))
  end.

(** [build(service, addresses)]: a record named and labelled after the
    service, with one subset holding every declared port and every resolved
    address. *)
Definition spec_build (service : ServiceObj) (addresses : list EndpointAddress)
  : Endpoints :=
  {| eps_meta := {| Name := Name (svc_meta service);
                    Namespace := ""; UID := ""; ResourceVersion := "";
                    Labels := Labels (svc_meta service);
                    Annotations := ∅ |};
     Subsets := [ {| Addresses := addresses;
                     Ports := (λ p, {| port_Name := sp_Name p;
                                       port_Port := sp_Port p;
                                       port_Protocol := "" |}) <$> svc_Ports service |} ] |}.

(** The log lines written for the per-node errors. *)
Definition warnEntries (errs : list error) : list LogEntry :=
  (λ err, (WarnLevel, "error getting node address: " +:+ Error err)) <$> errs.

(** Applying the built record, with the error wrapped as [syncNodeEndpoints]
    wraps it. *)
Definition spec_apply {σ} `{!CoreV1Interface σ}
    (service : ServiceObj) (addresses : list EndpointAddress) : M σ (option error) :=
  r ← CreateOrUpdateEndpoints (Namespace (svc_meta service)) (spec_build service addresses);
  mret (errorsWrap r.1 "synchronizing kubelet endpoints object failed").

(** A call that writes an endpoints object. *)
Definition isWrite (c : Call) : bool :=
  match c with
  | CallEndpointsCreate _ _ | CallEndpointsUpdate _ _ => true
  | _ => false
  end.

(** The world after [logrus.Error(err)], or unchanged when [err] is nil. *)
Definition logged {σ} (err : option error) (w : World σ) : World σ :=
  match err with
  | Some e => mkWorld (cluster w) (calls w) (logs w ++ [(ErrorLevel, Error e)])
  | None => w
  end.

(** [strings.Count(s, sep)] for a separator of one byte. *)
Fixpoint Count (s : string) (sep : Ascii.ascii) : nat :=
  match s with
  | EmptyString => 0
  | String c rest => (if decide (c = sep) then 1 else 0) + Count rest sep
  end.

(** A target of the form [namespace/name]: two parts around one separator. *)
Definition wellFormed (v : StaticMapping.Service) : Prop :=
  length (Split (StaticMapping.service v) slash) = 2.

(** What the validation loop of [main] lets through. *)
Definition accepted (v : StaticMapping.Service) : Prop :=
  StaticMapping.service v = "" ∨ wellFormed v.

Global Instance wellFormed_dec v : Decision (wellFormed v).
Proof. unfold wellFormed. apply _. Defined.

Global Instance accepted_dec v : Decision (accepted v).
Proof. unfold accepted. apply _. Defined.

Global Instance Label_eq_dec : EqDecision Label.
Proof. solve_decision. Defined.

(** How often a label occurs in a run. *)
Definition occurrences (l : Label) (tr : list Label) : nat :=
  length (filter (λ x, x = l) tr).

(** The scheduler property as the specification words it: once the stop
    signal has arrived, no step begins a cycle. *)
Definition neverBeginsAfterStop {σ} (syncAndLog : M σ unit) (w : World σ) : Prop :=
  ∀ s s', reachable syncAndLog w s → stopc s = true → ¬ step syncAndLog s CycleBegin s'.

(** An empty cluster, on which a cycle of the label-query variant lists no
    service. *)
Definition emptyCluster : FakeCluster := mkFake ∅ [] ∅ 0.
Definition emptyWorld : World FakeCluster := mkWorld emptyCluster [] [].

(** A run in which the stop signal and a tick both arrive while the second
    cycle is in flight. *)
Definition raceTrace : list Label :=
  [CycleBegin; CycleEnd; NewTicker; EnvAdvance tickInterval; EnvTick;
   CycleBegin; EnvAdvance tickInterval; EnvTick; EnvStop; CycleEnd].

Definition raceState : Sched FakeCluster :=
  mkSched AtSelect
    (mkWorld emptyCluster
       [(CallServicesList "" LabelQuery.endpointsSyncEnabledService, None);
        (CallServicesList "" LabelQuery.endpointsSyncEnabledService, None)] [])
    (2 * tickInterval) true (Some (3 * tickInterval)%Z) true.

(** The invariant of all runs from the start: cycles begun and ended,
    ticks fired and time elapsed. *)
Definition schedInv {σ} (tr : list Label) (s : Sched σ) : Prop :=
  occurrences CycleBegin tr
    = occurrences CycleEnd tr + (match pc s with InSync _ => 1 | _ => 0 end)
  ∧ (pc s = AtEntry → occurrences CycleBegin tr = 0 ∧ ticker s = None ∧ tickC s = false)
  ∧ (ticker s = None → pc s ≠ Done → occurrences EnvTick tr = 0 ∧ tickC s = false)
  ∧ occurrences CycleBegin tr + (if tickC s then 1 else 0)
      ≤ 1 + occurrences EnvTick tr
  ∧ (Z.of_nat (occurrences EnvTick tr) * tickInterval ≤ now s)%Z
  ∧ (∀ t, ticker s = Some t →
       (now s ≤ t)%Z ∧ ((Z.of_nat (occurrences EnvTick tr) + 1) * tickInterval ≤ t)%Z)
  ∧ (pc s ≠ AtEntry → 1 ≤ occurrences CycleBegin tr).

(** ** A concrete cluster

    The scenario of the specification: the service
    [kube-system/kube-scheduler-prometheus-discovery] declares the port
    [(http-metrics, 10251)]; the selector matches one machine with an
    internal address and one with an external address only.  A third
    machine has a host name and nothing else, and a second service is
    configured with a selector that does not parse. *)

Definition exMeta (ns n : string) (labels annotations : gmap string string) : ObjectMeta :=
  {| Name := n; Namespace := ns; UID := ""; ResourceVersion := "";
     Labels := labels; Annotations := annotations |}.

Definition exService : ServiceObj :=
  {| svc_meta := exMeta "kube-system" "kube-scheduler-prometheus-discovery"
                   {[ "endpoints-operator.fnox.se/enabled" := "true" ]}
                   {[ "endpoints-operator.fnox.se/node-selector" := "role=controlplane" ]};
     svc_Ports := [ {| sp_Name := "http-metrics"; sp_Protocol := "TCP";
                       sp_Port := 10251; sp_NodePort := 0 |} ] |}.

Definition exServiceBad : ServiceObj :=
  {| svc_meta := exMeta "kube-system" "kube-controller-manager-prometheus-discovery"
                   {[ "endpoints-operator.fnox.se/enabled" := "true" ]}
                   {[ "endpoints-operator.fnox.se/node-selector" := "role=controlplane=true" ]};
     svc_Ports := [ {| sp_Name := "http-metrics"; sp_Protocol := "TCP";
                       sp_Port := 10252; sp_NodePort := 0 |} ] |}.

Definition exNode (n : string) (addrs : list NodeAddress) : Node :=
  {| node_APIVersion := "";
     node_meta := exMeta "" n {[ "role" := "controlplane" ]} ∅;
     node_Addresses := addrs |}.

Definition exNode1 : Node :=
  exNode "master-1" [ {| Type_ := "Hostname"; Address := "master-1" |};
                      {| Type_ := "InternalIP"; Address := "10.0.0.1" |} ].
Definition exNode2 : Node :=
  exNode "master-2" [ {| Type_ := "ExternalIP"; Address := "203.0.113.5" |} ].
Definition exNode3 : Node :=
  exNode "master-3" [ {| Type_ := "Hostname"; Address := "master-3" |} ].

Definition exCluster : FakeCluster :=
  mkFake {[ ("kube-system", "kube-scheduler-prometheus-discovery") := exService;
            ("kube-system", "kube-controller-manager-prometheus-discovery") := exServiceBad ]}
         [exNode1; exNode2; exNode3] ∅ 0.

Definition exWorld : World FakeCluster := mkWorld exCluster [] [].

(** The same cluster once the record of the first service is stored. *)
Definition exStored : Endpoints := stamp "kube-system" 1 (spec_build exService []).

Definition exClusterStored : FakeCluster :=
  mkFake (fc_services exCluster) (fc_nodes exCluster)
         {[ ("kube-system", "kube-scheduler-prometheus-discovery") := exStored ]} 1.

Definition exWorldStored : World FakeCluster := mkWorld exClusterStored [] [].

(** The two roles of the static mapping, the second with a selector the
    cluster rejects, and a role whose target has no separator. *)
Definition exRole : StaticMapping.Service :=
  {| StaticMapping.NodeLabelSelector := "role=controlplane";
     StaticMapping.service := "kube-system/kube-scheduler-prometheus-discovery";
     StaticMapping.Name := "scheduler" |}.

Definition exRoleBad : StaticMapping.Service :=
  {| StaticMapping.NodeLabelSelector := "role=controlplane=true";
     StaticMapping.service := "kube-system/kube-controller-manager-prometheus-discovery";
     StaticMapping.Name := "controller-manager" |}.

Definition exRoleMalformed : StaticMapping.Service :=
  {| StaticMapping.NodeLabelSelector := "role=controlplane";
     StaticMapping.service := "kube-scheduler-prometheus-discovery";
     StaticMapping.Name := "scheduler" |}.

Definition exArgs : gmap string string :=
  {[ "scheduler-node-label" := "role=controlplane";
     "scheduler-service" := "kube-system/kube-scheduler-prometheus-discovery" ]}.

Definition exArgsMalformed : gmap string string :=
  {[ "scheduler-node-label" := "role=controlplane";
     "scheduler-service" := "kube-scheduler-prometheus-discovery" ]}.

(** A run that stops at the select with the signal in and no tick. *)
Definition stopTrace : list Label := [CycleBegin; CycleEnd; NewTicker; EnvStop].

Definition stopState : Sched FakeCluster :=
  mkSched AtSelect
    (mkWorld emptyCluster
       [(CallServicesList "" LabelQuery.endpointsSyncEnabledService, None)] [])
    0 true (Some tickInterval) false.


(** ** The shapes a sync can take *)

(** The calls [CreateOrUpdateEndpoints] can make on a record, with the error
    it returns for each. *)
Inductive applyOutcome (eclient : string) (eps : Endpoints)
  : option error → list Event → Prop :=
| apply_fetch_failed e :
    IsNotFound (Some e) = false →
    applyOutcome eclient eps
      (Some (Wrap e "retrieving existing kubelet endpoints object failed"))
      [(CallEndpointsGet eclient (Name (eps_meta eps)), Some e)]
| apply_created e r :
    IsNotFound (Some e) = true →
    applyOutcome eclient eps
      (errorsWrap r "creating kubelet endpoints object failed")
      [(CallEndpointsGet eclient (Name (eps_meta eps)), Some e);
       (CallEndpointsCreate eclient eps, r)]
| apply_updated old r :
    applyOutcome eclient eps
      (errorsWrap r "updating kubelet endpoints object failed")
      [(CallEndpointsGet eclient (Name (eps_meta eps)), None);
       (CallEndpointsUpdate eclient
          (setResourceVersion (ResourceVersion (eps_meta old)) eps), r)].

(** The calls and warnings of a sync once the service is fetched. *)
Inductive serviceOutcome (service : ServiceObj) (sel : string)
  : option error → list Event → list LogEntry → Prop :=
| service_list_failed e :
    serviceOutcome service sel (Some (Wrap e "listing nodes failed"))
      [(CallNodesList sel, Some e)] []
| service_applied nodes r d :
    applyOutcome (Namespace (svc_meta service))
      (spec_build service (omap spec_resolved nodes)) r d →
    serviceOutcome service sel
      (errorsWrap r "synchronizing kubelet endpoints object failed")
      ((CallNodesList sel, None) :: d)
      (warnEntries (omap spec_rejected nodes)).

(** The calls and warnings of a whole sync of the service [namespace/name],
    whose fetch answered [fetch]. *)
Inductive syncOutcome (fetch : result ServiceObj) (namespace name sel : string)
  : option error → list Event → list LogEntry → Prop :=
| sync_fetch_failed e :
    fetch = Err e →
    syncOutcome fetch namespace name sel (Some e)
      [(CallServicesGet namespace name, Some e)] []
| sync_fetched service r d l :
    fetch = Ok service →
    serviceOutcome service sel r d l →
    syncOutcome fetch namespace name sel r
      ((CallServicesGet namespace name, None) :: d) l.

(** The service fetches of a trace, and the object an endpoints call
    addresses. *)
Definition servicesFetched (d : list Event) : list (string * string) :=
  omap (λ ev, match ev.1 with
              | CallServicesGet namespace name => Some (namespace, name)
              | _ => None
              end) d.

Definition endpointsKey (c : Call) : option (string * string) :=
  match c with
  | CallEndpointsGet namespace name => Some (namespace, name)
  | CallEndpointsCreate namespace eps
  | CallEndpointsUpdate namespace eps => Some (namespace, Name (eps_meta eps))
  | _ => None
  end.

(** The context an error of a call is wrapped in before it is logged. *)
Definition errorContext (c : Call) : string :=
  match c with
  | CallServicesList _ _ | CallServicesGet _ _ => ""
  | CallNodesList _ => "listing nodes failed: "
  | CallEndpointsGet _ _ =>
      "synchronizing kubelet endpoints object failed: retrieving existing kubelet endpoints object failed: "
  | CallEndpointsCreate _ _ =>
      "synchronizing kubelet endpoints object failed: creating kubelet endpoints object failed: "
  | CallEndpointsUpdate _ _ =>
      "synchronizing kubelet endpoints object failed: updating kubelet endpoints object failed: "
  end.

Global Instance Level_eq_dec : EqDecision Level.
Proof. solve_decision. Defined.

(** The writes of a trace that succeeded, and the error lines of a log. *)
Definition writesDone (d : list Event) : list Event :=
  filter (λ ev, isWrite ev.1 = true ∧ ev.2 = None) d.

Definition errorLines (l : list LogEntry) : list LogEntry :=
  filter (λ entry, entry.1 = ErrorLevel) l.


(** The services of a listing that carry the node-selector annotation, and
    the namespace and name under which each is fetched. *)
Definition annotated (items : list ServiceObj) : list ServiceObj :=
  filter (λ s, is_Some (Annotations (svc_meta s) !! LabelQuery.nodeSelectorLabel)) items.

Definition serviceKey (s : ServiceObj) : string * string :=
  (Namespace (svc_meta s), Name (svc_meta s)).

(** The roles of the static mapping that are configured, and the namespace
    and name a role's target names. *)
Definition configured (l : list StaticMapping.Service) : list StaticMapping.Service :=
  filter (λ v, StaticMapping.service v ≠ "") l.

Definition roleKey (v : StaticMapping.Service) : option (string * string) :=
  match Split (StaticMapping.service v) slash with
  | [namespace; name] => Some (namespace, name)
  | _ => None
  end.

(** The states around the making of the ticker on the empty cluster, and
    the rest of the run [raceTrace] from there. *)
Definition afterFirstCycle : World FakeCluster :=
  mkWorld emptyCluster
    [(CallServicesList "" LabelQuery.endpointsSyncEnabledService, None)] [].

Definition beforeTicker : Sched FakeCluster :=
  mkSched AtNewTicker afterFirstCycle 0 false None false.

Definition afterTicker : Sched FakeCluster :=
  mkSched AtSelect afterFirstCycle 0 false (Some tickInterval) false.

Definition raceTraceAfterTicker : list Label :=
  [EnvAdvance tickInterval; EnvTick; CycleBegin; EnvAdvance tickInterval; EnvTick;
   EnvStop; CycleEnd].
(** * Proofs *)

(** Tactics: [runM] unfolds the monad and the client wrappers, [use_inv]
    feeds an invariant its own premises. *)
Ltac runM :=
  unfold kubeServicesList, kubeServicesGet, kubeNodesList,
    kubeEndpointsGet, kubeEndpointsCreate, kubeEndpointsUpdate in *;
  unfold mbind, M_bind, mret, M_ret, liftGo, logrus, invoke in *;
  cbn [cluster calls logs fst snd] in *.

Arguments IsNotFound : simpl never.

Ltac use_inv :=
  repeat match goal with
  | H : ?a = ?a → _ |- _ => specialize (H eq_refl)
  | H : ?a ≠ ?b → _ |- _ =>
      let Hn := fresh in assert (a ≠ b) as Hn by discriminate; specialize (H Hn); clear Hn
  | H : ∀ t, Some ?x = Some t → _ |- _ => specialize (H x eq_refl)
  | H : _ ∧ _ |- _ => destruct H
  end.

(** ** Facts about the address map *)

Lemma addrMap_foldl_lookup (addrs : list NodeAddress) (m : gmap string (list string)) t :
  default [] (foldl addrMapStep m addrs !! t)
  = default [] (m !! t) ++ (Address <$> filter (λ a, Type_ a = t) addrs).
Proof.
  revert m. induction addrs as [|a addrs IH]; intros m; simpl.
  - by rewrite app_nil_r.
  - rewrite IH. unfold addrMapStep at 1.
    rewrite filter_cons. destruct (decide (Type_ a = t)) as [->|Hne].
    + rewrite lookup_insert_eq. simpl. by rewrite <- app_assoc.
    + by rewrite lookup_insert_ne.
Qed.

Lemma addrMap_foldl_nonempty (addrs : list NodeAddress) (m : gmap string (list string)) :
  (∀ t l, m !! t = Some l → l ≠ []) →
  ∀ t l, foldl addrMapStep m addrs !! t = Some l → l ≠ [].
Proof.
  revert m. induction addrs as [|a addrs IH]; intros m Hm; simpl; [done|].
  apply IH. intros t l. unfold addrMapStep.
  destruct (decide (Type_ a = t)) as [->|Hne].
  - rewrite lookup_insert_eq. intros [= <-]. by destruct (default [] _).
  - rewrite lookup_insert_ne by done. apply Hm.
Qed.

Lemma addrMap_foldl_None (addrs : list NodeAddress) (m : gmap string (list string)) t :
  foldl addrMapStep m addrs !! t = None ↔
  m !! t = None ∧ filter (λ a, Type_ a = t) addrs = [].
Proof.
  revert m. induction addrs as [|a addrs IH]; intros m; simpl.
  - tauto.
  - rewrite IH. unfold addrMapStep. rewrite filter_cons.
    destruct (decide (Type_ a = t)) as [->|Hne].
    + rewrite lookup_insert_eq. split; intros [? ?]; discriminate.
    + rewrite lookup_insert_ne by done. tauto.
Qed.

(** The map entry for a type is absent exactly when the node has no address
    of that type, and otherwise lists those addresses in order. *)
Lemma addrMap_lookup (n : Node) t :
  addrMap (node_Addresses n) !! t
  = match addressesOfType t n with [] => None | l => Some l end.
Proof.
  unfold addrMap, addressesOfType.
  destruct (foldl addrMapStep ∅ (node_Addresses n) !! t) as [l|] eqn:E.
  - pose proof (addrMap_foldl_lookup (node_Addresses n) ∅ t) as H.
    rewrite E, lookup_empty in H. simpl in H. subst l.
    apply addrMap_foldl_nonempty in E; [|by intros ? ?; rewrite lookup_empty].
    by destruct (Address <$> _).
  - apply addrMap_foldl_None in E as [_ ->]. done.
Qed.

(** ** The resolver *)

Lemma nodeAddress_spec (n : Node) :
  nodeAddress n
  = Some (default "" (spec_selectAddress n), addrMap (node_Addresses n),
          match spec_selectAddress n with
          | Some _ => None
          | None => Some (Errorf "host address unknown")
          end).
Proof.
  unfold nodeAddress, spec_selectAddress. rewrite !addrMap_lookup.
  destruct (addressesOfType NodeInternalIP n) as [|a l]; [|done].
  by destruct (addressesOfType NodeExternalIP n) as [|a l].
Qed.

Lemma getNodeAddresses_loop_spec (items : list Node) addresses errs :
  getNodeAddresses_loop items addresses errs
  = Some (addresses ++ omap spec_resolved items, errs ++ omap spec_rejected items).
Proof.
  revert addresses errs. induction items as [|n items IH]; intros addresses errs; simpl.
  - by rewrite !app_nil_r.
  - rewrite nodeAddress_spec. unfold spec_resolved, spec_rejected.
    destruct (spec_selectAddress n) as [a|]; simpl; rewrite IH.
    + by rewrite <- app_assoc.
    + by rewrite <- app_assoc.
Qed.

Lemma getNodeAddresses_spec (nodes : list Node) :
  getNodeAddresses nodes = Some (omap spec_resolved nodes, omap spec_rejected nodes).
Proof. unfold getNodeAddresses. by rewrite getNodeAddresses_loop_spec. Qed.

Lemma spec_selectAddress_None (n : Node) :
  spec_selectAddress n = None ↔ hasNoAddress n.
Proof.
  unfold spec_selectAddress, hasNoAddress.
  destruct (addressesOfType NodeInternalIP n), (addressesOfType NodeExternalIP n);
    split; try done; intros [? ?]; discriminate.
Qed.

Lemma omap_resolved_length (nodes : list Node) :
  length (omap spec_resolved nodes) + length (filter hasNoAddress nodes) = length nodes.
Proof.
  induction nodes as [|n nodes IH]; [done|].
  rewrite filter_cons. cbn. unfold spec_resolved at 1.
  destruct (decide (hasNoAddress n)) as [Hn|Hn].
  - apply spec_selectAddress_None in Hn. rewrite Hn. cbn. lia.
  - destruct (spec_selectAddress n) eqn:E; cbn; [lia|].
    by apply spec_selectAddress_None in E.
Qed.

Lemma omap_rejected_filter (nodes : list Node) :
  omap spec_rejected nodes
  = (λ n, nodeError n (Errorf "host address unknown")) <$> filter hasNoAddress nodes.
Proof.
  induction nodes as [|n nodes IH]; [done|].
  rewrite filter_cons. cbn. unfold spec_rejected at 1.
  destruct (decide (hasNoAddress n)) as [Hn|Hn].
  - apply spec_selectAddress_None in Hn. rewrite Hn. cbn. by rewrite IH.
  - destruct (spec_selectAddress n) eqn:E; cbn; [done|].
    by apply spec_selectAddress_None in E.
Qed.

Lemma spec_selectAddress_Some (n : Node) (ip : string) :
  spec_selectAddress n = Some ip →
  {| Type_ := NodeInternalIP; Address := ip |} ∈ node_Addresses n
  ∨ (addressesOfType NodeInternalIP n = []
     ∧ {| Type_ := NodeExternalIP; Address := ip |} ∈ node_Addresses n).
Proof.
  assert (∀ t l, addressesOfType t n = ip :: l →
            {| Type_ := t; Address := ip |} ∈ node_Addresses n) as Hin.
  { intros t l Ht.
    assert (ip ∈ addressesOfType t n) as Hip by (rewrite Ht; left).
    unfold addressesOfType in Hip.
    apply list_elem_of_fmap in Hip as ([t' ip'] & -> & Ha).
    apply list_elem_of_filter in Ha as [Ht' Ha]. cbn in Ht'. by subst. }
  unfold spec_selectAddress.
  destruct (addressesOfType NodeInternalIP n) as [|a l] eqn:Hi.
  - destruct (addressesOfType NodeExternalIP n) as [|a l] eqn:He; [done|].
    intros [= ->]. right. split; [done|]. by eapply Hin.
  - intros [= ->]. left. by eapply Hin.
Qed.

(** C3. Every listed machine is resolved by priority.  [nodeAddress]
    yields the first internal address when there is one, else the first
    external address, else the error.  [getNodeAddresses] maps every machine
    of the list, in order, to the entry holding that address and a reference
    to the machine, or to one error naming the machine.  Every entry it
    returns carries an address its machine has with the internal type, or
    with the external type when the machine has no internal one.  A machine
    without address is left out, and the machines after it are still
    resolved. *)
Theorem resolver_priority_and_exclusion :
  (∀ n : Node,
     nodeAddress n
     = Some (match addressesOfType NodeInternalIP n with
             | a :: _ => a
             | [] => match addressesOfType NodeExternalIP n with
                     | a :: _ => a
                     | [] => ""
                     end
             end,
             addrMap (node_Addresses n),
             match addressesOfType NodeInternalIP n, addressesOfType NodeExternalIP n with
             | [], [] => Some (Errorf "host address unknown")
             | _, _ => None
             end))
  ∧ (∀ nodes : list Node,
       getNodeAddresses nodes
       = Some (omap (λ n,
                       (λ a, {| IP := a;
                                TargetRef := Some {| ref_Kind := "Node";
                                                     ref_Name := Name (node_meta n);
                                                     ref_UID := UID (node_meta n);
                                                     ref_APIVersion := node_APIVersion n |} |})
                       <$> match addressesOfType NodeInternalIP n with
                           | a :: _ => Some a
                           | [] => match addressesOfType NodeExternalIP n with
                                   | a :: _ => Some a
                                   | [] => None
                                   end
                           end) nodes,
               omap (λ n,
                       if decide (hasNoAddress n)
                       then Some (Wrap (Errorf "host address unknown")
                                    ("failed to determine hostname for node ("
                                     +:+ Name (node_meta n) +:+ ")"))
                       else None) nodes))
  ∧ (∀ (nodes : list Node) addresses errs a,
       getNodeAddresses nodes = Some (addresses, errs) →
       a ∈ addresses →
       ∃ n, n ∈ nodes
            ∧ TargetRef a = Some {| ref_Kind := "Node";
                                    ref_Name := Name (node_meta n);
                                    ref_UID := UID (node_meta n);
                                    ref_APIVersion := node_APIVersion n |}
            ∧ ({| Type_ := NodeInternalIP; Address := IP a |} ∈ node_Addresses n
               ∨ ((∀ x, x ∈ node_Addresses n → Type_ x ≠ NodeInternalIP)
                  ∧ {| Type_ := NodeExternalIP; Address := IP a |} ∈ node_Addresses n)))
  ∧ (∀ (before after : list Node) (n : Node),
       hasNoAddress n →
       fst <$> getNodeAddresses (before ++ n :: after)
       = fst <$> getNodeAddresses (before ++ after)).
Proof.
  split; [|split; [|split]].
  - intros n. rewrite nodeAddress_spec. unfold spec_selectAddress.
    destruct (addressesOfType NodeInternalIP n); [|done].
    by destruct (addressesOfType NodeExternalIP n).
  - intros nodes. rewrite getNodeAddresses_spec.
    assert (∀ (A B : Type) (f g : A → option B) (l : list A),
              (∀ x, f x = g x) → omap f l = omap g l) as Hext.
    { intros A B f g l Hfg. induction l as [|x l IH]; [done|]. cbn. by rewrite Hfg, IH. }
    rewrite (Hext _ _ spec_resolved
               (λ n, (λ a, {| IP := a;
                              TargetRef := Some {| ref_Kind := "Node";
                                                   ref_Name := Name (node_meta n);
                                                   ref_UID := UID (node_meta n);
                                                   ref_APIVersion := node_APIVersion n |} |})
                     <$> match addressesOfType NodeInternalIP n with
                         | a :: _ => Some a
                         | [] => match addressesOfType NodeExternalIP n with
                                 | a :: _ => Some a
                                 | [] => None
                                 end
                         end) nodes).
    2: { intros n. unfold spec_resolved, spec_selectAddress, nodeEndpointAddress.
         destruct (addressesOfType NodeInternalIP n); [|done].
         by destruct (addressesOfType NodeExternalIP n). }
    rewrite (Hext _ _ spec_rejected
               (λ n, if decide (hasNoAddress n)
                     then Some (Wrap (Errorf "host address unknown")
                                  ("failed to determine hostname for node ("
                                   +:+ Name (node_meta n) +:+ ")"))
                     else None) nodes); [done|].
    intros n. unfold spec_rejected, nodeError.
    destruct (decide (hasNoAddress n)) as [Hn|Hn].
    + apply spec_selectAddress_None in Hn. by rewrite Hn.
    + destruct (spec_selectAddress n) eqn:E; [done|].
      by apply spec_selectAddress_None in E.
  - intros nodes addresses errs a. rewrite getNodeAddresses_spec.
    intros [= <- <-] Ha.
    apply list_elem_of_omap in Ha as (n & Hn & Hres).
    unfold spec_resolved in Hres.
    destruct (spec_selectAddress n) as [ip|] eqn:Hsel; [|done].
    cbn in Hres. injection Hres as <-. exists n. split; [done|]. split; [done|].
    apply spec_selectAddress_Some in Hsel as [Hint|[Hnone Hext]]; [by left|right].
    split; [|done]. intros x Hx Ht. unfold addressesOfType in Hnone.
    apply fmap_nil_inv in Hnone.
    assert (x ∈ filter (λ a, Type_ a = NodeInternalIP) (node_Addresses n)) as Hin
      by (by apply list_elem_of_filter).
    rewrite Hnone in Hin. by apply elem_of_nil in Hin.
  - intros before after n Hn. rewrite !getNodeAddresses_spec. simpl.
    rewrite !omap_app. simpl. unfold spec_resolved at 2.
    apply spec_selectAddress_None in Hn. by rewrite Hn.
Qed.

(** C4. The resolver returns as many addresses as machines listed minus the
    machines with neither an internal nor an external address, and exactly
    one error for each of those, in order. *)
Theorem resolver_counts (nodes : list Node) :
  ∃ addresses errs,
    getNodeAddresses nodes = Some (addresses, errs)
    ∧ length addresses = length nodes - length (filter hasNoAddress nodes)
    ∧ length errs = length (filter hasNoAddress nodes)
    ∧ errs = (λ n, nodeError n (Errorf "host address unknown"))
               <$> filter hasNoAddress nodes.
Proof.
  exists (omap spec_resolved nodes), (omap spec_rejected nodes).
  split; [apply getNodeAddresses_spec|].
  pose proof (omap_resolved_length nodes).
  rewrite omap_rejected_filter, length_fmap. repeat split; lia.
Qed.

(** ** Running the monad *)

Section OperatorFacts.
Context {σ : Type} `{!CoreV1Interface σ}.

Lemma warnAll_spec (errs : list error) (w : World σ) :
  warnAll errs w = Some ((), mkWorld (cluster w) (calls w) (logs w ++ warnEntries errs)).
Proof.
  revert w. induction errs as [|e errs IH]; intros w; simpl.
  - unfold mret, M_ret. rewrite app_nil_r. by destruct w.
  - runM. rewrite IH. cbn. by rewrite <- app_assoc.
Qed.

Lemma appendPorts_spec (ports : list ServicePort) meta s rest :
  appendPorts ports {| eps_meta := meta; Subsets := s :: rest |}
  = Some {| eps_meta := meta;
            Subsets := {| Addresses := Addresses s;
                          Ports := Ports s ++
                            ((λ p, {| port_Name := sp_Name p; port_Port := sp_Port p;
                                      port_Protocol := "" |}) <$> ports) |} :: rest |}.
Proof.
  revert s. induction ports as [|p ports IH]; intros s; simpl.
  - rewrite app_nil_r. by destruct s.
  - unfold updSubset0. cbn. rewrite IH. cbn. by rewrite <- app_assoc.
Qed.

(** [CreateOrUpdateEndpoints] by the answer of the fetch. *)
Lemma CreateOrUpdateEndpoints_unfold eclient eps (w : World σ) :
  CreateOrUpdateEndpoints eclient eps w
  = match Endpoints_Get eclient (Name (eps_meta eps)) (cluster w) with
    | (Err err, c1) =>
        if IsNotFound (Some err) then
          let '(r, c2) := Endpoints_Create eclient eps c1 in
          Some ((errorsWrap (errOf r) "creating kubelet endpoints object failed", eps),
                mkWorld c2
                  (calls w ++ [(CallEndpointsGet eclient (Name (eps_meta eps)), Some err);
                               (CallEndpointsCreate eclient eps, errOf r)])
                  (logs w))
        else
          Some ((Some (Wrap err "retrieving existing kubelet endpoints object failed"), eps),
                mkWorld c1
                  (calls w ++ [(CallEndpointsGet eclient (Name (eps_meta eps)), Some err)])
                  (logs w))
    | (Ok endpoints, c1) =>
        let eps' := setResourceVersion (ResourceVersion (eps_meta endpoints)) eps in
        let '(r, c2) := Endpoints_Update eclient eps' c1 in
        Some ((errorsWrap (errOf r) "updating kubelet endpoints object failed", eps'),
              mkWorld c2
                (calls w ++ [(CallEndpointsGet eclient (Name (eps_meta eps)), None);
                             (CallEndpointsUpdate eclient eps', errOf r)])
                (logs w))
    end.
Proof.
  unfold CreateOrUpdateEndpoints. runM.
  destruct (Endpoints_Get eclient (Name (eps_meta eps)) (cluster w)) as [[e|err] c1]; cbn.
  - change (IsNotFound None) with false. cbn.
    destruct (Endpoints_Update eclient
                (setResourceVersion (ResourceVersion (eps_meta e)) eps) c1) as [[?|?] ?];
      cbn; by rewrite <- app_assoc.
  - destruct (IsNotFound (Some err)); cbn; [|done].
    destruct (Endpoints_Create eclient eps c1) as [[?|?] ?]; cbn; by rewrite <- app_assoc.
Qed.

(** [CreateOrUpdateEndpoints] always returns. *)
Lemma CreateOrUpdateEndpoints_total eclient eps (w : World σ) :
  is_Some (CreateOrUpdateEndpoints eclient eps w).
Proof.
  rewrite CreateOrUpdateEndpoints_unfold.
  destruct (Endpoints_Get eclient (Name (eps_meta eps)) (cluster w)) as [[e|err] c1]; cbn.
  - destruct (Endpoints_Update eclient _ c1) as [? ?]; eauto.
  - destruct (IsNotFound (Some err)); [|eauto].
    destruct (Endpoints_Create eclient eps c1) as [? ?]; eauto.
Qed.

Lemma syncService_listed service sel (w : World σ) nodes c2 :
  Nodes_List sel (cluster w) = (Ok nodes, c2) →
  syncService service sel w
  = spec_apply service (omap spec_resolved nodes)
      (mkWorld c2 (calls w ++ [(CallNodesList sel, None)])
                  (logs w ++ warnEntries (omap spec_rejected nodes))).
Proof.
  intros Hl. unfold syncService, spec_apply.
  rewrite appendPorts_spec. runM. rewrite Hl. cbn.
  rewrite getNodeAddresses_spec. cbn.
  assert (∀ w' : World σ,
    (if bool_decide (0 < length (omap spec_rejected nodes))
     then warnAll (omap spec_rejected nodes) else (λ w, Some ((), w))) w'
    = Some ((), mkWorld (cluster w') (calls w')
                  (logs w' ++ warnEntries (omap spec_rejected nodes)))) as Hw.
  { intros w'. case_bool_decide as Hlen; [apply warnAll_spec|].
    destruct (omap spec_rejected nodes); [|simpl in Hlen; lia].
    cbn. rewrite app_nil_r. by destruct w'. }
  rewrite Hw. cbn. unfold spec_build.
  destruct (CreateOrUpdateEndpoints _ _ _) as [[[[err|] eps'] w']|]; done.
Qed.

Lemma syncService_unlisted service sel (w : World σ) e c2 :
  Nodes_List sel (cluster w) = (Err e, c2) →
  syncService service sel w
  = Some (Some (Wrap e "listing nodes failed"),
          mkWorld c2 (calls w ++ [(CallNodesList sel, Some e)]) (logs w)).
Proof.
  intros Hl. unfold syncService. rewrite appendPorts_spec. runM. by rewrite Hl.
Qed.

Lemma spec_apply_total service addresses (w : World σ) :
  is_Some (spec_apply service addresses w).
Proof.
  unfold spec_apply. runM.
  destruct (CreateOrUpdateEndpoints_total (Namespace (svc_meta service))
              (spec_build service addresses) w) as [[r w'] ->]. eauto.
Qed.

(** [syncService] always returns: its index expressions are in range. *)
Lemma syncService_total service sel (w : World σ) :
  is_Some (syncService service sel w).
Proof.
  destruct (Nodes_List sel (cluster w)) as [[nodes|e] c2] eqn:Hl.
  - rewrite (syncService_listed _ _ _ _ _ Hl). apply spec_apply_total.
  - rewrite (syncService_unlisted _ _ _ _ _ Hl). eauto.
Qed.

End OperatorFacts.

(** ** One service: fetch, build, apply *)

Section SyncFacts.
Context {σ : Type} `{!CoreV1Interface σ}.

Lemma LabelQuery_sync_fetched namespace svc sel (w : World σ) service c1 :
  Services_Get namespace svc (cluster w) = (Ok service, c1) →
  LabelQuery.syncNodeEndpoints namespace svc sel w
  = syncService service sel
      (mkWorld c1 (calls w ++ [(CallServicesGet namespace svc, None)])
                  (logs w ++ [(DebugLevel, "starting sync of " +:+ svc)])).
Proof. intros Hg. unfold LabelQuery.syncNodeEndpoints. runM. by rewrite Hg. Qed.

Lemma LabelQuery_sync_unfetched namespace svc sel (w : World σ) err c1 :
  Services_Get namespace svc (cluster w) = (Err err, c1) →
  LabelQuery.syncNodeEndpoints namespace svc sel w
  = Some (Some err,
          mkWorld c1 (calls w ++ [(CallServicesGet namespace svc, Some err)])
                     (logs w ++ [(DebugLevel, "starting sync of " +:+ svc)])).
Proof. intros Hg. unfold LabelQuery.syncNodeEndpoints. runM. by rewrite Hg. Qed.

Lemma Static_sync_fetched (svc : StaticMapping.Service) namespace name
    (w : World σ) service c1 :
  StaticMapping.Namespace svc = Some namespace →
  StaticMapping.Service_ svc = Some name →
  Services_Get namespace name (cluster w) = (Ok service, c1) →
  StaticMapping.syncNodeEndpoints svc w
  = syncService service (StaticMapping.NodeLabelSelector svc)
      (mkWorld c1 (calls w ++ [(CallServicesGet namespace name, None)])
                  (logs w ++ [(DebugLevel, "starting sync of " +:+ StaticMapping.Name svc)])).
Proof.
  intros Hn Hs Hg. unfold StaticMapping.syncNodeEndpoints. runM.
  rewrite Hn, Hs. cbn. by rewrite Hg.
Qed.

Lemma Static_sync_unfetched (svc : StaticMapping.Service) namespace name
    (w : World σ) err c1 :
  StaticMapping.Namespace svc = Some namespace →
  StaticMapping.Service_ svc = Some name →
  Services_Get namespace name (cluster w) = (Err err, c1) →
  StaticMapping.syncNodeEndpoints svc w
  = Some (Some err,
          mkWorld c1 (calls w ++ [(CallServicesGet namespace name, Some err)])
                     (logs w ++ [(DebugLevel, "starting sync of " +:+ StaticMapping.Name svc)])).
Proof.
  intros Hn Hs Hg. unfold StaticMapping.syncNodeEndpoints. runM.
  rewrite Hn, Hs. cbn. by rewrite Hg.
Qed.

(** C1. For a service with P declared ports and any list of nodes, with N
    of them resolved (N may be 0), the record both variants of
    [syncNodeEndpoints] hand to [CreateOrUpdateEndpoints] has exactly one
    subset, with one port per declared port (same names and numbers, in
    order) and the N resolved addresses; the sync then is the apply of that
    record, so an empty address list is no error of its own. *)
Theorem built_record_single_subset (service : ServiceObj) (nodes : list Node) :
  ∃ addresses errs sub,
    getNodeAddresses nodes = Some (addresses, errs)
    ∧ length addresses = length nodes - length (filter hasNoAddress nodes)
    ∧ Subsets (spec_build service addresses) = [sub]
    ∧ length (Ports sub) = length (svc_Ports service)
    ∧ (λ p, (port_Name p, port_Port p)) <$> Ports sub
      = (λ p, (sp_Name p, sp_Port p)) <$> svc_Ports service
    ∧ Addresses sub = addresses
    ∧ (∀ namespace svc sel (w : World σ) c1 c2,
         Services_Get namespace svc (cluster w) = (Ok service, c1) →
         Nodes_List sel c1 = (Ok nodes, c2) →
         LabelQuery.syncNodeEndpoints namespace svc sel w
         = (r ← CreateOrUpdateEndpoints (Namespace (svc_meta service))
                  (spec_build service addresses);
            mret (errorsWrap r.1 "synchronizing kubelet endpoints object failed"))
             (mkWorld c2
                (calls w ++ [(CallServicesGet namespace svc, None); (CallNodesList sel, None)])
                (logs w ++ (DebugLevel, "starting sync of " +:+ svc) :: warnEntries errs)))
    ∧ (∀ (svc : StaticMapping.Service) namespace name (w : World σ) c1 c2,
         StaticMapping.Namespace svc = Some namespace →
         StaticMapping.Service_ svc = Some name →
         Services_Get namespace name (cluster w) = (Ok service, c1) →
         Nodes_List (StaticMapping.NodeLabelSelector svc) c1 = (Ok nodes, c2) →
         StaticMapping.syncNodeEndpoints svc w
         = (r ← CreateOrUpdateEndpoints (Namespace (svc_meta service))
                  (spec_build service addresses);
            mret (errorsWrap r.1 "synchronizing kubelet endpoints object failed"))
             (mkWorld c2
                (calls w ++ [(CallServicesGet namespace name, None);
                             (CallNodesList (StaticMapping.NodeLabelSelector svc), None)])
                (logs w ++ (DebugLevel, "starting sync of " +:+ StaticMapping.Name svc)
                             :: warnEntries errs))).
Proof.
  exists (omap spec_resolved nodes), (omap spec_rejected nodes).
  eexists. split; [apply getNodeAddresses_spec|].
  split; [pose proof (omap_resolved_length nodes); lia|].
  split; [reflexivity|]. cbn [Ports Addresses].
  split; [by rewrite length_fmap|].
  split; [by rewrite <- list_fmap_compose|].
  split; [done|]. split.
  - intros namespace svc sel w c1 c2 Hg Hl.
    rewrite (LabelQuery_sync_fetched _ _ _ _ _ _ Hg).
    rewrite (syncService_listed _ _ _ nodes c2) by done.
    cbn [cluster calls logs]. by rewrite <- !app_assoc.
  - intros svc namespace name w c1 c2 Hn Hs Hg Hl.
    rewrite (Static_sync_fetched _ _ _ _ _ _ Hn Hs Hg).
    rewrite (syncService_listed _ _ _ nodes c2) by done.
    cbn [cluster calls logs]. by rewrite <- !app_assoc.
Qed.

(** C2. [CreateOrUpdateEndpoints] on any record: a fetch that fails with
    not-found is followed by a create of the record as given; a fetch that
    succeeds is followed by an update of the record carrying the fetched
    token; a fetch failing otherwise issues no write; and every such
    failure, as every failure of the create or the update, comes back as a
    wrapped error.  The record the operator applies is the one it has just
    built, whose version token is empty, so what it creates carries none. *)
Theorem apply_create_or_update (eclient : string) (eps : Endpoints) (w : World σ) :
  (∀ err c1,
     Endpoints_Get eclient (Name (eps_meta eps)) (cluster w) = (Err err, c1) →
     IsNotFound (Some err) = true →
     ∃ r c2,
       Endpoints_Create eclient eps c1 = (r, c2)
       ∧ CreateOrUpdateEndpoints eclient eps w
         = Some ((errorsWrap (errOf r) "creating kubelet endpoints object failed", eps),
                 mkWorld c2
                   (calls w ++ [(CallEndpointsGet eclient (Name (eps_meta eps)), Some err);
                                (CallEndpointsCreate eclient eps, errOf r)])
                   (logs w)))
  ∧ (∀ endpoints c1,
       Endpoints_Get eclient (Name (eps_meta eps)) (cluster w) = (Ok endpoints, c1) →
       ∃ r c2 eps',
         eps' = setResourceVersion (ResourceVersion (eps_meta endpoints)) eps
         ∧ ResourceVersion (eps_meta eps') = ResourceVersion (eps_meta endpoints)
         ∧ Endpoints_Update eclient eps' c1 = (r, c2)
         ∧ CreateOrUpdateEndpoints eclient eps w
           = Some ((errorsWrap (errOf r) "updating kubelet endpoints object failed", eps'),
                   mkWorld c2
                     (calls w ++ [(CallEndpointsGet eclient (Name (eps_meta eps)), None);
                                  (CallEndpointsUpdate eclient eps', errOf r)])
                     (logs w)))
  ∧ (∀ err c1,
       Endpoints_Get eclient (Name (eps_meta eps)) (cluster w) = (Err err, c1) →
       IsNotFound (Some err) = false →
       CreateOrUpdateEndpoints eclient eps w
       = Some ((Some (Wrap err "retrieving existing kubelet endpoints object failed"), eps),
               mkWorld c1
                 (calls w ++ [(CallEndpointsGet eclient (Name (eps_meta eps)), Some err)])
                 (logs w)))
  ∧ (∀ service sel nodes c2,
       Nodes_List sel (cluster w) = (Ok nodes, c2) →
       ResourceVersion (eps_meta (spec_build service (omap spec_resolved nodes))) = ""
       ∧ syncService service sel w
         = (r ← CreateOrUpdateEndpoints (Namespace (svc_meta service))
                  (spec_build service (omap spec_resolved nodes));
            mret (errorsWrap r.1 "synchronizing kubelet endpoints object failed"))
             (mkWorld c2 (calls w ++ [(CallNodesList sel, None)])
                (logs w ++ warnEntries (omap spec_rejected nodes)))).
Proof.
  split; [|split; [|split]].
  - intros err c1 Hg Hnf.
    destruct (Endpoints_Create eclient eps c1) as [r c2] eqn:Hc. exists r, c2.
    split; [done|]. rewrite CreateOrUpdateEndpoints_unfold, Hg, Hnf, Hc. done.
  - intros endpoints c1 Hg.
    destruct (Endpoints_Update eclient
                (setResourceVersion (ResourceVersion (eps_meta endpoints)) eps) c1)
      as [r c2] eqn:Hu.
    exists r, c2, (setResourceVersion (ResourceVersion (eps_meta endpoints)) eps).
    split; [done|]. split; [done|]. split; [done|].
    rewrite CreateOrUpdateEndpoints_unfold, Hg. cbn zeta. by rewrite Hu.
  - intros err c1 Hg Hnf. by rewrite CreateOrUpdateEndpoints_unfold, Hg, Hnf.
  - intros service sel nodes c2 Hl. split; [done|]. by apply syncService_listed.
Qed.

(** C10. [CreateOrUpdateEndpoints] writes one field of the record it is
    given, and only when the fetch succeeded: the version token, which
    becomes the fetched record's; name, namespace, UID, labels, annotations
    and subsets are those of the input in every branch. *)
Theorem apply_changes_only_token (eclient : string) (eps : Endpoints) (w : World σ) :
  ∃ err eps' w',
    CreateOrUpdateEndpoints eclient eps w = Some ((err, eps'), w')
    ∧ Name (eps_meta eps') = Name (eps_meta eps)
    ∧ Namespace (eps_meta eps') = Namespace (eps_meta eps)
    ∧ UID (eps_meta eps') = UID (eps_meta eps)
    ∧ Labels (eps_meta eps') = Labels (eps_meta eps)
    ∧ Annotations (eps_meta eps') = Annotations (eps_meta eps)
    ∧ Subsets eps' = Subsets eps
    ∧ ResourceVersion (eps_meta eps')
      = match (Endpoints_Get eclient (Name (eps_meta eps)) (cluster w)).1 with
        | Ok endpoints => ResourceVersion (eps_meta endpoints)
        | Err _ => ResourceVersion (eps_meta eps)
        end.
Proof.
  rewrite CreateOrUpdateEndpoints_unfold.
  destruct (Endpoints_Get eclient (Name (eps_meta eps)) (cluster w)) as [[e|err] c1]; cbn.
  - destruct (Endpoints_Update eclient _ c1) as [? ?];
      do 3 eexists; (split; [reflexivity|]); done.
  - destruct (IsNotFound (Some err)); [|do 3 eexists; (split; [reflexivity|]); done].
    destruct (Endpoints_Create eclient eps c1) as [? ?];
      do 3 eexists; (split; [reflexivity|]); done.
Qed.

(** A sync that reports no error ended with a write that succeeded. *)
Lemma CreateOrUpdateEndpoints_ok_written eclient eps (w : World σ) eps' w' :
  CreateOrUpdateEndpoints eclient eps w = Some ((None, eps'), w') →
  ∃ c, calls w' = calls w ++ [(CallEndpointsGet eclient (Name (eps_meta eps)),
                               errOf (Endpoints_Get eclient (Name (eps_meta eps)) (cluster w)).1);
                              (c, None)]
       ∧ (c = CallEndpointsCreate eclient eps ∨ c = CallEndpointsUpdate eclient eps')
       ∧ Subsets eps' = Subsets eps.
Proof.
  rewrite CreateOrUpdateEndpoints_unfold.
  destruct (Endpoints_Get eclient (Name (eps_meta eps)) (cluster w)) as [[e|err] c1]; cbn.
  - destruct (Endpoints_Update eclient _ c1) as [[?|?] ?]; cbn; [|done].
    intros [= <- <-]. cbn. eauto.
  - destruct (IsNotFound (Some err)); [|done].
    destruct (Endpoints_Create eclient eps c1) as [[?|?] ?]; cbn; [|done].
    intros [= <- <-]. cbn. eauto.
Qed.

End SyncFacts.

(** ** One cycle: fault isolation *)

Section CycleFacts.
Context {σ : Type} `{!CoreV1Interface σ}.

Lemma CreateOrUpdateEndpoints_logs eclient eps (w : World σ) r w' :
  CreateOrUpdateEndpoints eclient eps w = Some (r, w') → logs w' = logs w.
Proof.
  rewrite CreateOrUpdateEndpoints_unfold.
  destruct (Endpoints_Get eclient (Name (eps_meta eps)) (cluster w)) as [[e|err] c1]; cbn.
  - destruct (Endpoints_Update eclient _ c1) as [? ?]; by intros [= <- <-].
  - destruct (IsNotFound (Some err)); [|by intros [= <- <-]].
    destruct (Endpoints_Create eclient eps c1) as [? ?]; by intros [= <- <-].
Qed.

(** What a run of [syncService] leaves behind: the log only grows, and a
    run without error ends with a write that succeeded. *)
Lemma syncService_outcome service sel (w : World σ) r w' :
  syncService service sel w = Some (r, w') →
  (∃ l, logs w' = logs w ++ l)
  ∧ (r = None → ∃ pre c, calls w' = pre ++ [(c, None)] ∧ isWrite c = true).
Proof.
  destruct (Nodes_List sel (cluster w)) as [[nodes|e] c2] eqn:Hl.
  - rewrite (syncService_listed _ _ _ _ _ Hl). unfold spec_apply. runM.
    destruct (CreateOrUpdateEndpoints _ _ _) as [[[err eps'] w1]|] eqn:Hc; [|done].
    cbn. intros [= <- <-]. split.
    + apply CreateOrUpdateEndpoints_logs in Hc. cbn in Hc. eauto.
    + destruct err; [done|]. intros _.
      apply CreateOrUpdateEndpoints_ok_written in Hc as (c & -> & Hw & _).
      eexists (_ ++ [_]), c. split; [by rewrite <- app_assoc|].
      by destruct Hw as [-> | ->].
  - rewrite (syncService_unlisted _ _ _ _ _ Hl). intros [= <- <-]. split; [|done].
    exists []. cbn. by rewrite app_nil_r.
Qed.

Lemma LabelQuery_sync_outcome namespace svc sel (w : World σ) r w' :
  LabelQuery.syncNodeEndpoints namespace svc sel w = Some (r, w') →
  (∃ l, logs w' = logs w ++ l)
  ∧ (r = None → ∃ pre c, calls w' = pre ++ [(c, None)] ∧ isWrite c = true).
Proof.
  destruct (Services_Get namespace svc (cluster w)) as [[service|e] c1] eqn:Hg.
  - rewrite (LabelQuery_sync_fetched _ _ _ _ _ _ Hg). intros Hs.
    apply syncService_outcome in Hs as [[l Hl] Hw]. cbn in Hl. split; [|done].
    rewrite Hl, <- app_assoc. eauto.
  - rewrite (LabelQuery_sync_unfetched _ _ _ _ _ _ Hg). intros [= <- <-].
    split; [cbn; eauto|done].
Qed.

Lemma Static_sync_outcome (svc : StaticMapping.Service) (w : World σ) r w' :
  StaticMapping.syncNodeEndpoints svc w = Some (r, w') →
  (∃ l, logs w' = logs w ++ l)
  ∧ (r = None → ∃ pre c, calls w' = pre ++ [(c, None)] ∧ isWrite c = true).
Proof.
  destruct (StaticMapping.Namespace svc) as [namespace|] eqn:Hn;
    [|unfold StaticMapping.syncNodeEndpoints; runM; by rewrite Hn].
  destruct (StaticMapping.Service_ svc) as [name|] eqn:Hs;
    [|unfold StaticMapping.syncNodeEndpoints; runM; by rewrite Hn, Hs].
  destruct (Services_Get namespace name (cluster w)) as [[service|e] c1] eqn:Hg.
  - rewrite (Static_sync_fetched _ _ _ _ _ _ Hn Hs Hg). intros Hr.
    apply syncService_outcome in Hr as [[l Hl] Hw]. cbn in Hl. split; [|done].
    rewrite Hl, <- app_assoc. eauto.
  - rewrite (Static_sync_unfetched _ _ _ _ _ _ Hn Hs Hg). intros [= <- <-].
    split; [cbn; eauto|done].
Qed.

Lemma Static_syncAndLog_skip (svc : StaticMapping.Service) rest (w : World σ) :
  StaticMapping.service svc = "" →
  StaticMapping.syncAndLog (svc :: rest) w = StaticMapping.syncAndLog rest w.
Proof. intros He. simpl. by rewrite decide_True. Qed.

Lemma Static_syncAndLog_cons (svc : StaticMapping.Service) rest (w : World σ) err w1 :
  StaticMapping.service svc ≠ "" →
  StaticMapping.syncNodeEndpoints svc w = Some (err, w1) →
  StaticMapping.syncAndLog (svc :: rest) w = StaticMapping.syncAndLog rest (logged err w1).
Proof.
  intros Hne Hs. simpl. rewrite decide_False by done. runM. rewrite Hs.
  destruct err; cbn; [done|]. by destruct w1.
Qed.

Lemma Static_syncAndLog_app l1 l2 (w w0 : World σ) :
  StaticMapping.syncAndLog l1 w = Some ((), w0) →
  StaticMapping.syncAndLog (l1 ++ l2) w = StaticMapping.syncAndLog l2 w0.
Proof.
  revert w. induction l1 as [|svc l1 IH]; intros w.
  - by intros [= ->].
  - cbn [app]. destruct (decide (StaticMapping.service svc = "")) as [He|Hne].
    + rewrite !Static_syncAndLog_skip by done. apply IH.
    + destruct (StaticMapping.syncNodeEndpoints svc w) as [[err w1]|] eqn:Hs.
      * rewrite !(Static_syncAndLog_cons _ _ _ _ _ Hne Hs). apply IH.
      * simpl. rewrite decide_False by done. runM. by rewrite Hs.
Qed.

Lemma LabelQuery_loop_cons (svc : ServiceObj) rest (w : World σ) sel err w1 :
  Annotations (svc_meta svc) !! LabelQuery.nodeSelectorLabel = Some sel →
  LabelQuery.syncNodeEndpoints (Namespace (svc_meta svc)) (Name (svc_meta svc)) sel w
    = Some (err, w1) →
  LabelQuery.syncAndLog_loop (svc :: rest) w
  = LabelQuery.syncAndLog_loop rest (logged err w1).
Proof.
  intros Ha Hs. simpl. rewrite Ha. runM. rewrite Hs.
  destruct err; cbn; [done|]. by destruct w1.
Qed.

Lemma LabelQuery_loop_app l1 l2 (w w0 : World σ) :
  LabelQuery.syncAndLog_loop l1 w = Some ((), w0) →
  LabelQuery.syncAndLog_loop (l1 ++ l2) w = LabelQuery.syncAndLog_loop l2 w0.
Proof.
  revert w. induction l1 as [|svc l1 IH]; intros w.
  - by intros [= ->].
  - cbn [app]. simpl.
    destruct (Annotations (svc_meta svc) !! LabelQuery.nodeSelectorLabel) as [sel|].
    + runM. destruct (LabelQuery.syncNodeEndpoints _ _ sel w) as [[err w1]|]; [|done].
      destruct err; cbn; apply IH.
    + runM. apply IH.
Qed.

End CycleFacts.

Section FaultIsolation.
Context {σ : Type} `{!CoreV1Interface σ}.

(** C5. In one cycle, in both variants, a service whose sync fails (the
    node listing failed, or the apply did) has its error logged and the
    services after it are processed from the world it left; with two
    services of which the first fails and the second succeeds, the cycle
    ends with the error in the log and with the second service's record
    written. *)
Theorem fault_isolation :
  (∀ service sel (w : World σ) err c2,
     Nodes_List sel (cluster w) = (Err err, c2) →
     syncService service sel w
     = Some (Some (Wrap err "listing nodes failed"),
             mkWorld c2 (calls w ++ [(CallNodesList sel, Some err)]) (logs w)))
  ∧ (∀ before svc after (w w0 w1 : World σ) e,
       StaticMapping.syncAndLog before w = Some ((), w0) →
       StaticMapping.service svc ≠ "" →
       StaticMapping.syncNodeEndpoints svc w0 = Some (Some e, w1) →
       StaticMapping.syncAndLog (before ++ svc :: after) w
       = StaticMapping.syncAndLog after
           (mkWorld (cluster w1) (calls w1) (logs w1 ++ [(ErrorLevel, Error e)])))
  ∧ (∀ svc1 svc2 (w w1 w2 : World σ) e,
       StaticMapping.service svc1 ≠ "" →
       StaticMapping.service svc2 ≠ "" →
       StaticMapping.syncNodeEndpoints svc1 w = Some (Some e, w1) →
       StaticMapping.syncNodeEndpoints svc2
         (mkWorld (cluster w1) (calls w1) (logs w1 ++ [(ErrorLevel, Error e)]))
         = Some (None, w2) →
       StaticMapping.syncAndLog [svc1; svc2] w = Some ((), w2)
       ∧ (ErrorLevel, Error e) ∈ logs w2
       ∧ ∃ pre c, calls w2 = pre ++ [(c, None)] ∧ isWrite c = true)
  ∧ (∀ before svc after (w w0 w1 : World σ) sel e,
       LabelQuery.syncAndLog_loop before w = Some ((), w0) →
       Annotations (svc_meta svc) !! LabelQuery.nodeSelectorLabel = Some sel →
       LabelQuery.syncNodeEndpoints (Namespace (svc_meta svc)) (Name (svc_meta svc)) sel w0
         = Some (Some e, w1) →
       LabelQuery.syncAndLog_loop (before ++ svc :: after) w
       = LabelQuery.syncAndLog_loop after
           (mkWorld (cluster w1) (calls w1) (logs w1 ++ [(ErrorLevel, Error e)])))
  ∧ (∀ svc1 svc2 (w w1 w2 : World σ) c0 sel1 sel2 e,
       Services_List "" LabelQuery.endpointsSyncEnabledService (cluster w)
         = (Ok [svc1; svc2], c0) →
       Annotations (svc_meta svc1) !! LabelQuery.nodeSelectorLabel = Some sel1 →
       Annotations (svc_meta svc2) !! LabelQuery.nodeSelectorLabel = Some sel2 →
       LabelQuery.syncNodeEndpoints (Namespace (svc_meta svc1)) (Name (svc_meta svc1)) sel1
         (mkWorld c0
            (calls w ++ [(CallServicesList "" LabelQuery.endpointsSyncEnabledService, None)])
            (logs w))
         = Some (Some e, w1) →
       LabelQuery.syncNodeEndpoints (Namespace (svc_meta svc2)) (Name (svc_meta svc2)) sel2
         (mkWorld (cluster w1) (calls w1) (logs w1 ++ [(ErrorLevel, Error e)]))
         = Some (None, w2) →
       LabelQuery.syncAndLog w = Some ((), w2)
       ∧ (ErrorLevel, Error e) ∈ logs w2
       ∧ ∃ pre c, calls w2 = pre ++ [(c, None)] ∧ isWrite c = true).
Proof.
  split; [|split; [|split; [|split]]].
  - intros service sel w err c2. apply syncService_unlisted.
  - intros before svc after w w0 w1 e Hb Hne Hs.
    rewrite (Static_syncAndLog_app _ _ _ _ Hb).
    by rewrite (Static_syncAndLog_cons _ _ _ _ _ Hne Hs).
  - intros svc1 svc2 w w1 w2 e Hne1 Hne2 Hs1 Hs2.
    rewrite (Static_syncAndLog_cons _ _ _ _ _ Hne1 Hs1).
    rewrite (Static_syncAndLog_cons _ _ _ _ _ Hne2 Hs2). cbn.
    apply Static_sync_outcome in Hs2 as [[l Hl] Hw]. cbn in Hl.
    split; [done|]. split; [|by apply Hw].
    rewrite Hl. set_solver.
  - intros before svc after w w0 w1 sel e Hb Ha Hs.
    rewrite (LabelQuery_loop_app _ _ _ _ Hb).
    by rewrite (LabelQuery_loop_cons _ _ _ _ _ _ Ha Hs).
  - intros svc1 svc2 w w1 w2 c0 sel1 sel2 e Hl Ha1 Ha2 Hs1 Hs2.
    assert (LabelQuery.syncAndLog w = Some ((), w2)) as Hrun.
    { unfold LabelQuery.syncAndLog. runM. rewrite Hl.
      cbn -[LabelQuery.syncAndLog_loop].
      rewrite (LabelQuery_loop_cons _ _ _ _ _ _ Ha1 Hs1).
      by rewrite (LabelQuery_loop_cons _ _ _ _ _ _ Ha2 Hs2). }
    apply LabelQuery_sync_outcome in Hs2 as [[l Hlog] Hw]. cbn in Hlog.
    split; [done|]. split; [|by apply Hw].
    rewrite Hlog. set_solver.
Qed.

End FaultIsolation.

(** ** The static mapping: startup validation and the accessors *)

Lemma Split_length (s : string) (sep : Ascii.ascii) :
  length (Split s sep) = S (Count s sep).
Proof.
  induction s as [|c s IH]; simpl; [done|].
  destruct (decide (c = sep)); simpl; [by rewrite IH|].
  destruct (Split s sep); simpl in *; done.
Qed.

Lemma Split_no_separator (s : string) (sep : Ascii.ascii) :
  Count s sep = 0 → Split s sep = [s].
Proof.
  induction s as [|c s IH]; simpl; [done|].
  destruct (decide (c = sep)); simpl; [done|].
  intros H0. by rewrite IH.
Qed.

Lemma checkServices_None (l : list StaticMapping.Service) :
  StaticMapping.checkServices l = None ↔ Forall accepted l.
Proof.
  induction l as [|v l IH]; simpl.
  - split; [constructor|done].
  - rewrite Forall_cons. unfold accepted at 1, wellFormed.
    destruct (decide (StaticMapping.service v = "")) as [He|Hne].
    + rewrite IH. tauto.
    + destruct (decide (length (Split (StaticMapping.service v) slash) ≠ 2)) as [Hl|Hl].
      * split; [done|]. intros [[?|?] _]; done.
      * rewrite IH. apply dec_stable in Hl. tauto.
Qed.

Lemma accessors_in_range (s : StaticMapping.Service) :
  wellFormed s →
  ∃ namespace name,
    Split (StaticMapping.service s) slash = [namespace; name]
    ∧ StaticMapping.Namespace s = Some namespace
    ∧ StaticMapping.Service_ s = Some name.
Proof.
  unfold wellFormed, StaticMapping.Namespace, StaticMapping.Service_.
  destruct (Split (StaticMapping.service s) slash) as [|a [|b [|c l]]]; try done.
  intros _. by exists a, b.
Qed.

Section StaticFacts.
Context {σ : Type} `{!CoreV1Interface σ}.

Lemma Static_sync_total (svc : StaticMapping.Service) (w : World σ) :
  wellFormed svc → is_Some (StaticMapping.syncNodeEndpoints svc w).
Proof.
  intros (namespace & name & _ & Hn & Hs)%accessors_in_range.
  destruct (Services_Get namespace name
              (cluster (mkWorld (cluster w) (calls w)
                 (logs w ++ [(DebugLevel, "starting sync of " +:+ StaticMapping.Name svc)]))))
    as [[service|e] c1] eqn:Hg; cbn in Hg.
  - rewrite (Static_sync_fetched _ _ _ _ _ _ Hn Hs Hg). apply syncService_total.
  - rewrite (Static_sync_unfetched _ _ _ _ _ _ Hn Hs Hg). eauto.
Qed.

Lemma Static_syncAndLog_total (l : list StaticMapping.Service) (w : World σ) :
  Forall accepted l → is_Some (StaticMapping.syncAndLog l w).
Proof.
  intros Hl. revert w. induction Hl as [|svc l Hsvc _ IH]; intros w; [by eexists|].
  destruct (decide (StaticMapping.service svc = "")) as [He|Hne].
  - rewrite Static_syncAndLog_skip by done. apply IH.
  - destruct Hsvc as [?|Hwf]; [done|].
    destruct (Static_sync_total svc w Hwf) as [[err w1] Hs].
    rewrite (Static_syncAndLog_cons _ _ _ _ _ Hne Hs). apply IH.
Qed.

Lemma Static_sync_panics (svc : StaticMapping.Service) (w : World σ) :
  Count (StaticMapping.service svc) slash = 0 →
  StaticMapping.syncNodeEndpoints svc w = None.
Proof.
  intros H0. unfold StaticMapping.syncNodeEndpoints,
    StaticMapping.Namespace, StaticMapping.Service_. runM.
  by rewrite (Split_no_separator _ _ H0).
Qed.

End StaticFacts.

(** C7. At startup of the static-mapping variant the roles with an empty
    target raise no error, and a role whose non-empty target does not split
    into exactly two parts around the separator makes [main] log and return
    before the client is made, the listener started or the syncer launched;
    when the syncer is launched, every target a cycle processes has exactly
    two parts, and a cycle passes over the roles with an empty target. *)
Theorem static_startup_validation (args : gmap string string) :
  let sl := StaticMapping.parseFlags args StaticMapping.serviceList in
  (Forall accepted sl →
     StaticMapping.main args
     = [StaticMapping.GetKubeClient; StaticMapping.ListenAndServe;
        StaticMapping.PeriodicSyncer sl; StaticMapping.WaitShutdown])
  ∧ (Exists (λ v, StaticMapping.service v ≠ "" ∧ ¬ wellFormed v) sl →
       ∃ msg, StaticMapping.main args = [StaticMapping.LogErrorf msg])
  ∧ (∀ l, StaticMapping.PeriodicSyncer l ∈ StaticMapping.main args →
       l = sl
       ∧ Forall wellFormed (filter (λ v, StaticMapping.service v ≠ "") l))
  ∧ (∀ (σ : Type) (client : CoreV1Interface σ) svc rest (w : World σ),
       StaticMapping.service svc = "" →
       StaticMapping.syncAndLog (svc :: rest) w = StaticMapping.syncAndLog rest w).
Proof.
  intros sl. unfold StaticMapping.main. fold sl.
  split; [|split; [|split]].
  - intros Hacc. apply checkServices_None in Hacc. by rewrite Hacc.
  - intros Hbad. destruct (StaticMapping.checkServices sl) as [msg|] eqn:Hc; [eauto|].
    apply checkServices_None in Hc. apply Exists_exists in Hbad as (v & Hv & Hne & Hwf).
    rewrite Forall_forall in Hc. destruct (Hc v Hv); done.
  - intros l Hin. destruct (StaticMapping.checkServices sl) eqn:Hc.
    + apply list_elem_of_singleton in Hin. done.
    + assert (l = sl) as ->.
      { repeat (apply elem_of_cons in Hin as [Hin|Hin]; [congruence|]).
        by apply elem_of_nil in Hin. }
      split; [done|]. apply checkServices_None in Hc.
      apply Forall_forall. intros v [Hne Hv]%list_elem_of_filter.
      rewrite Forall_forall in Hc. destruct (Hc v Hv); done.
  - intros σ client svc rest w He. by apply Static_syncAndLog_skip.
Qed.

(** C9. [Service.Namespace()] and [Service.Service()] index the split
    target at 0 and 1 with no guard.  On a target that has exactly two parts
    both are in range; index 0 is always in range; index 1 is out of range
    on a target without separator, where [syncNodeEndpoints] panics; and
    after the validation of [main] no cycle panics, whatever the client
    answers. *)
Theorem accessors_safe_after_validation :
  (∀ s, wellFormed s →
     ∃ namespace name,
       Split (StaticMapping.service s) slash = [namespace; name]
       ∧ StaticMapping.Namespace s = Some namespace
       ∧ StaticMapping.Service_ s = Some name)
  ∧ (∀ s, is_Some (StaticMapping.Namespace s))
  ∧ (∀ s, Count (StaticMapping.service s) slash = 0 →
       StaticMapping.Service_ s = None
       ∧ ∀ (σ : Type) (client : CoreV1Interface σ) (w : World σ),
           StaticMapping.syncNodeEndpoints s w = None)
  ∧ (∀ l, StaticMapping.checkServices l = None →
       ∀ (σ : Type) (client : CoreV1Interface σ) (w : World σ),
         is_Some (StaticMapping.syncAndLog l w))
  ∧ (∀ args l, StaticMapping.PeriodicSyncer l ∈ StaticMapping.main args →
       ∀ (σ : Type) (client : CoreV1Interface σ) (w : World σ),
         is_Some (StaticMapping.syncAndLog l w)).
Proof.
  split; [|split; [|split; [|split]]].
  - apply accessors_in_range.
  - intros s. unfold StaticMapping.Namespace.
    pose proof (Split_length (StaticMapping.service s) slash) as Hl.
    destruct (Split (StaticMapping.service s) slash); [done|by eexists].
  - intros s H0. split.
    + unfold StaticMapping.Service_. by rewrite (Split_no_separator _ _ H0).
    + intros σ client w. by apply Static_sync_panics.
  - intros l Hc σ client w. apply Static_syncAndLog_total. by apply checkServices_None.
  - intros args l Hin σ client w. apply Static_syncAndLog_total.
    unfold StaticMapping.main in Hin.
    destruct (StaticMapping.checkServices _) eqn:Hc.
    + apply list_elem_of_singleton in Hin. done.
    + assert (l = StaticMapping.parseFlags args StaticMapping.serviceList) as ->.
      { repeat (apply elem_of_cons in Hin as [Hin|Hin]; [congruence|]).
        by apply elem_of_nil in Hin. }
      by apply checkServices_None.
Qed.

(** ** Applying twice *)

Section Idempotence.
Context {σ : Type} `{!CoreV1Interface σ} `{!ClusterModel σ}.

(** A successful apply against a cluster that keeps what is written: what
    was issued, by what the store held, and what the store holds after. *)
Lemma CreateOrUpdateEndpoints_model eclient eps (w : World σ) eps' w' :
  CreateOrUpdateEndpoints eclient eps w = Some ((None, eps'), w') →
  servicesOf (cluster w') = servicesOf (cluster w)
  ∧ nodesOf (cluster w') = nodesOf (cluster w)
  ∧ (∃ stored, endpointsOf (cluster w') eclient (Name (eps_meta eps)) = Some stored
               ∧ Subsets stored = Subsets eps)
  ∧ ∃ g c, calls w' = calls w ++ [(CallEndpointsGet eclient (Name (eps_meta eps)), g); (c, None)]
           ∧ match endpointsOf (cluster w) eclient (Name (eps_meta eps)) with
             | None => c = CallEndpointsCreate eclient eps
             | Some old =>
                 g = None
                 ∧ c = CallEndpointsUpdate eclient
                         (setResourceVersion (ResourceVersion (eps_meta old)) eps)
             end.
Proof.
  rewrite CreateOrUpdateEndpoints_unfold.
  pose proof (Endpoints_Get_model eclient (Name (eps_meta eps)) (cluster w))
    as (Hs1 & Hn1 & He1 & Hget).
  destruct (Endpoints_Get eclient (Name (eps_meta eps)) (cluster w))
    as [[old|err] c1]; cbn in *.
  - pose proof (Endpoints_Update_model eclient
                  (setResourceVersion (ResourceVersion (eps_meta old)) eps) c1)
      as (Hs2 & Hn2 & Hupd).
    destruct (Endpoints_Update eclient _ c1) as [[r|?] c2]; cbn in *; [|done].
    intros [= <- <-]. cbn. rewrite Hs2, Hn2, Hs1, Hn1.
    split; [done|]. split; [done|]. split; [by eapply Hupd|].
    eexists _, _. split; [done|]. by rewrite Hget.
  - destruct (IsNotFound (Some err)) eqn:Hnf; [|done].
    pose proof (Endpoints_Create_model eclient eps c1) as (Hs2 & Hn2 & Hcre).
    destruct (Endpoints_Create eclient eps c1) as [[r|?] c2]; cbn in *; [|done].
    intros [= <- <-]. cbn. rewrite Hs2, Hn2, Hs1, Hn1.
    split; [done|]. split; [done|]. split; [by eapply Hcre|].
    eexists _, _. split; [done|]. by rewrite Hget.
Qed.

Lemma syncService_model service sel (w : World σ) w' :
  syncService service sel w = Some (None, w') →
  let eps := spec_build service (omap spec_resolved (nodesOf (cluster w) sel)) in
  let ns := Namespace (svc_meta service) in
  servicesOf (cluster w') = servicesOf (cluster w)
  ∧ nodesOf (cluster w') = nodesOf (cluster w)
  ∧ (∃ stored, endpointsOf (cluster w') ns (Name (svc_meta service)) = Some stored
               ∧ Subsets stored = Subsets eps)
  ∧ ∃ g c, calls w' = calls w ++ [(CallNodesList sel, None);
                                  (CallEndpointsGet ns (Name (svc_meta service)), g);
                                  (c, None)]
           ∧ match endpointsOf (cluster w) ns (Name (svc_meta service)) with
             | None => c = CallEndpointsCreate ns eps
             | Some old =>
                 g = None
                 ∧ c = CallEndpointsUpdate ns
                         (setResourceVersion (ResourceVersion (eps_meta old)) eps)
             end.
Proof.
  pose proof (Nodes_List_model sel (cluster w)) as (Hs1 & Hn1 & He1 & Hlist).
  destruct (Nodes_List sel (cluster w)) as [[nodes|e] c2] eqn:Hl; cbn in *.
  - rewrite (syncService_listed _ _ _ _ _ Hl). rewrite <- (Hlist nodes eq_refl).
    unfold spec_apply. runM.
    destruct (CreateOrUpdateEndpoints _ _ _) as [[[[err|] eps'] w1]|] eqn:Hc; [done| |done].
    cbn. intros [= <-].
    apply CreateOrUpdateEndpoints_model in Hc as (Hs2 & Hn2 & Hst & g & c & Hcalls & Hm).
    cbn in *. rewrite Hs2, Hn2, Hs1, Hn1.
    split; [done|]. split; [done|]. split; [done|].
    exists g, c. rewrite Hcalls, <- app_assoc. split; [done|]. by rewrite <- He1.
  - rewrite (syncService_unlisted _ _ _ _ _ Hl). done.
Qed.

(** C6. Against a cluster that keeps what is written and whose services
    and nodes stay as they are, two syncs of the same service in a row that
    both succeed issue as their only writes a create or an update, then an
    update carrying the token stored by the first; both writes carry the
    same built record, and the subsets the store holds after the first sync
    and after the second are the same. *)
Theorem apply_twice_same_content namespace svc sel (w w1 w2 : World σ) :
  LabelQuery.syncNodeEndpoints namespace svc sel w = Some (None, w1) →
  LabelQuery.syncNodeEndpoints namespace svc sel w1 = Some (None, w2) →
  ∃ service eps g first stored1 stored2,
    eps = spec_build service (omap spec_resolved (nodesOf (cluster w) sel))
    ∧ calls w1 = calls w ++ [(CallServicesGet namespace svc, None);
                             (CallNodesList sel, None);
                             (CallEndpointsGet (Namespace (svc_meta service))
                                (Name (svc_meta service)), g);
                             (first, None)]
    ∧ (first = CallEndpointsCreate (Namespace (svc_meta service)) eps
       ∨ ∃ old, first = CallEndpointsUpdate (Namespace (svc_meta service))
                          (setResourceVersion (ResourceVersion (eps_meta old)) eps))
    ∧ calls w2 = calls w1 ++ [(CallServicesGet namespace svc, None);
                              (CallNodesList sel, None);
                              (CallEndpointsGet (Namespace (svc_meta service))
                                 (Name (svc_meta service)), None);
                              (CallEndpointsUpdate (Namespace (svc_meta service))
                                 (setResourceVersion (ResourceVersion (eps_meta stored1)) eps),
                               None)]
    ∧ endpointsOf (cluster w1) (Namespace (svc_meta service)) (Name (svc_meta service))
      = Some stored1
    ∧ endpointsOf (cluster w2) (Namespace (svc_meta service)) (Name (svc_meta service))
      = Some stored2
    ∧ Subsets stored1 = Subsets eps
    ∧ Subsets stored2 = Subsets stored1.
Proof.
  intros H1 H2.
  (* first sync *)
  pose proof (Services_Get_model namespace svc (cluster w)) as (Hs1 & Hn1 & He1 & Hget1).
  destruct (Services_Get namespace svc (cluster w)) as [[service|e] c1] eqn:Hg1; cbn in *;
    [|by rewrite (LabelQuery_sync_unfetched _ _ _ _ _ _ Hg1) in H1].
  rewrite (LabelQuery_sync_fetched _ _ _ _ _ _ Hg1) in H1.
  apply syncService_model in H1 as (Hs2 & Hn2 & (stored1 & Hst1 & Hsub1) & g & first & Hc1 & Hm1).
  cbn in *. rewrite Hs1 in Hs2. rewrite Hn1 in Hn2, Hsub1, Hm1.
  (* second sync *)
  pose proof (Services_Get_model namespace svc (cluster w1)) as (Hs3 & Hn3 & He3 & Hget2).
  destruct (Services_Get namespace svc (cluster w1)) as [[service'|e] c3] eqn:Hg2; cbn in *;
    [|by rewrite (LabelQuery_sync_unfetched _ _ _ _ _ _ Hg2) in H2].
  rewrite (LabelQuery_sync_fetched _ _ _ _ _ _ Hg2) in H2.
  assert (service' = service) as ->.
  { specialize (Hget1 _ eq_refl). specialize (Hget2 _ eq_refl).
    rewrite Hs2 in Hget2. congruence. }
  apply syncService_model in H2 as (Hs4 & Hn4 & (stored2 & Hst2 & Hsub2) & g2 & c2 & Hc2 & Hm2).
  cbn in *. rewrite Hn3, Hn2 in Hsub2, Hm2. rewrite He3, Hst1 in Hm2.
  destruct Hm2 as [-> ->].
  exists service, (spec_build service (omap spec_resolved (nodesOf (cluster w) sel))),
    g, first, stored1, stored2.
  split; [done|]. split; [by rewrite Hc1, <- app_assoc|].
  split.
  { destruct (endpointsOf c1 _ _) as [old|]; [right; exists old; tauto|by left]. }
  split; [by rewrite Hc2, <- app_assoc|].
  split; [done|]. split; [done|]. split; [done|]. congruence.
Qed.

End Idempotence.

(** On the reference cluster the premises of the theorem hold whenever the
    service exists and the selector parses: a sync succeeds and leaves
    services and nodes as they were, so a second sync succeeds as well. *)
Lemma reference_sync_succeeds (c : FakeCluster) namespace svc sel service cs ls :
  fc_services c !! (namespace, svc) = Some service →
  is_Some (matchSelector sel ∅) →
  ∃ w1, LabelQuery.syncNodeEndpoints namespace svc sel (mkWorld c cs ls) = Some (None, w1)
        ∧ fc_services (cluster w1) = fc_services c.
Proof.
  intros Hsvc [b Hsel].
  rewrite (LabelQuery_sync_fetched _ _ _ _ service c)
    by (cbn; unfold fake_Services_Get; by rewrite Hsvc).
  rewrite (syncService_listed _ _ _ (fake_nodesOf c sel) c)
    by (cbn; unfold fake_Nodes_List; by rewrite Hsel).
  unfold spec_apply. runM. rewrite CreateOrUpdateEndpoints_unfold. cbn.
  unfold fake_Endpoints_Get.
  destruct (fc_endpoints c !! _) as [old|] eqn:Hold; cbn.
  - unfold fake_Endpoints_Update. cbn. rewrite Hold.
    rewrite decide_False by (intros [_ Hne]; done). cbn. eauto.
  - unfold fake_Endpoints_Create. cbn. rewrite Hold. cbn. eauto.
Qed.

Lemma reference_sync_twice_succeeds (c : FakeCluster) namespace svc sel service cs ls :
  fc_services c !! (namespace, svc) = Some service →
  is_Some (matchSelector sel ∅) →
  ∃ w1 w2,
    LabelQuery.syncNodeEndpoints namespace svc sel (mkWorld c cs ls) = Some (None, w1)
    ∧ LabelQuery.syncNodeEndpoints namespace svc sel w1 = Some (None, w2).
Proof.
  intros Hsvc Hsel.
  destruct (reference_sync_succeeds c namespace svc sel service cs ls Hsvc Hsel)
    as (w1 & H1 & Hs1).
  destruct w1 as [c1 cs1 ls1]. cbn in Hs1.
  destruct (reference_sync_succeeds c1 namespace svc sel service cs1 ls1) as (w2 & H2 & _);
    [by rewrite Hs1|done|].
  eauto.
Qed.

(** ** The scheduler *)

Section SchedulerFacts.
Context {σ : Type} (syncAndLog : M σ unit).

Lemma occurrences_snoc (l x : Label) (tr : list Label) :
  occurrences l (tr ++ [x]) = occurrences l tr + (if decide (x = l) then 1 else 0).
Proof.
  unfold occurrences. rewrite filter_app, length_app. f_equal.
  rewrite filter_cons, filter_nil. by destruct (decide (x = l)).
Qed.

Lemma schedInv_run (w : World σ) tr s :
  run syncAndLog (initSched w) tr s → schedInv tr s.
Proof.
  induction 1 as [|tr s l s' Hrun IH Hstep].
  - unfold schedInv, occurrences. cbn. repeat split; try done; lia.
  - unfold schedInv in *. rewrite !occurrences_snoc.
    destruct s as [p w0 n st tk tc].
    inversion Hstep; subst; cbn [pc now ticker tickC stopc world] in *; subst;
      repeat match goal with |- context [decide (?a = ?b)] =>
               destruct (decide (a = b)); try discriminate end;
      use_inv; repeat split; intros; simplify_eq; use_inv;
      try done; try lia.
    all: try (destruct first; done).
    all: try (destruct tc; simplify_eq; lia).
    all: try (unfold tickInterval, Minute, Second in *; lia).
    all: try (destruct first; lia).
    all: intuition (try lia; try congruence).
Qed.

End SchedulerFacts.

Section SchedulerClaims.
Context {σ : Type} (syncAndLog : M σ unit).

Lemma run_front (s s1 s2 : Sched σ) l tr :
  step syncAndLog s l s1 → run syncAndLog s1 tr s2 → run syncAndLog s (l :: tr) s2.
Proof.
  intros Hstep Hrun. induction Hrun as [|tr s' l' s'' Hrun IH Hstep'].
  - apply (run_snoc _ _ [] s); [constructor|done].
  - change (l :: tr ++ [l']) with ((l :: tr) ++ [l']). by eapply run_snoc.
Qed.

Lemma run_returned (s : Sched σ) tr s' :
  run syncAndLog s tr s' → pc s = Done →
  pc s' = Done ∧ occurrences CycleBegin tr = 0.
Proof.
  intros Hrun Hdone. induction Hrun as [|tr s' l s'' Hrun [IHpc IHn] Hstep]; [done|].
  rewrite occurrences_snoc, IHn.
  inversion Hstep; subst; cbn; try congruence; by rewrite ?decide_False.
Qed.

Lemma run_stopped (s : Sched σ) tr s' :
  run syncAndLog s tr s' → stopc s = true → stopc s' = true.
Proof.
  intros Hrun Hstop. induction Hrun as [|tr s' l s'' Hrun IH Hstep]; [done|].
  inversion Hstep; subst; cbn; done.
Qed.

(** C8, as the code has it. The first cycle begins at once, with no ticker
    made and no tick awaited; cycles never overlap; every later cycle
    begins at the select by taking a tick of the two-minute ticker, which a
    buffered tick always allows, so that the cycles begun number at most one
    more than the ticks fired, and the ticks fired times two minutes have
    elapsed; with the stop signal in and
    no tick buffered the select can only return, and after the return no
    cycle begins and the signal stays in. *)
Theorem scheduler_cycles (w : World σ) :
  step syncAndLog (initSched w) CycleBegin (mkSched (InSync true) w 0 false None false)
  ∧ tickInterval = (2 * 60 * 1000000000)%Z
  ∧ ∀ tr s, run syncAndLog (initSched w) tr s →
      (pc s = AtEntry →
         occurrences CycleBegin tr = 0 ∧ ticker s = None ∧ tickC s = false)
      ∧ (pc s ≠ AtEntry → 1 ≤ occurrences CycleBegin tr)
      ∧ occurrences CycleBegin tr
        = occurrences CycleEnd tr + (match pc s with InSync _ => 1 | _ => 0 end)
      ∧ occurrences CycleBegin tr ≤ 1 + occurrences EnvTick tr
      ∧ (Z.of_nat (occurrences EnvTick tr) * tickInterval ≤ now s)%Z
      ∧ (∀ s', step syncAndLog s CycleBegin s' →
           pc s = AtEntry ∨ (pc s = AtSelect ∧ tickC s = true ∧ tickC s' = false))
      ∧ (pc s = AtSelect → tickC s = true →
           step syncAndLog s CycleBegin
             (mkSched (InSync false) (world s) (now s) (stopc s) (ticker s) false))
      ∧ (stopc s = true → pc s = AtSelect → tickC s = false →
           (∀ s', ¬ step syncAndLog s CycleBegin s')
           ∧ step syncAndLog s Return
               (mkSched Done (world s) (now s) (stopc s) None (tickC s)))
      ∧ (pc s = Done →
           ∀ tr' s', run syncAndLog s tr' s' →
             pc s' = Done ∧ occurrences CycleBegin tr' = 0)
      ∧ (stopc s = true →
           ∀ tr' s', run syncAndLog s tr' s' → stopc s' = true).
Proof.
  split; [by apply (step_first _ (initSched w))|]. split; [done|].
  intros tr s Hrun.
  pose proof (schedInv_run _ _ _ _ Hrun)
    as (Hseq & Hentry & Hnoticker & Hticks & Htime & Hnext & Hbegun).
  split; [done|]. split; [done|]. split; [done|].
  split; [destruct (tickC s); lia|]. split; [done|].
  split; [|split; [|split; [|split]]].
  - intros s' Hstep. inversion Hstep; subst; cbn; auto.
  - intros Hpc Htick. by constructor.
  - intros Hstop Hpc Htick. split.
    + intros s' Hstep. inversion Hstep; subst; congruence.
    + by constructor.
  - intros Hdone tr' s' Hrun'. by eapply run_returned.
  - intros Hstop tr' s' Hrun'. by eapply run_stopped.
Qed.

End SchedulerClaims.

Lemma raceRun : run LabelQuery.syncAndLog (initSched emptyWorld) raceTrace raceState.
Proof.
  unfold raceTrace.
  eapply run_front; [by apply step_first|]. cbn.
  eapply run_front; [by eapply step_end; [done|vm_compute; reflexivity]|]. cbn.
  eapply run_front; [by apply step_newticker|]. cbn.
  eapply run_front; [apply step_advance; [done|cbn; intros t [= <-]; lia]|]. cbn.
  eapply run_front; [by eapply step_tick|]. cbn.
  eapply run_front; [by apply step_select_tick|]. cbn.
  eapply run_front; [apply step_advance; [done|cbn; intros t [= <-]; lia]|]. cbn.
  eapply run_front; [by eapply step_tick|]. cbn.
  eapply run_front; [by apply step_stop|]. cbn.
  eapply run_front; [by eapply step_end; [done|vm_compute; reflexivity]|]. cbn.
  apply run_nil.
Qed.

(** C8 as worded fails: the run [raceTrace] ends at the select with the
    stop signal in and a tick buffered, where the select may take the tick
    and begin a cycle. *)
Lemma scheduler_begins_after_stop :
  ¬ neverBeginsAfterStop LabelQuery.syncAndLog emptyWorld.
Proof.
  intros Hnever.
  apply (Hnever raceState
           (mkSched (InSync false) (world raceState) (now raceState) (stopc raceState)
              (ticker raceState) false)).
  - exists raceTrace. apply raceRun.
  - done.
  - by apply (step_select_tick _ raceState).
Qed.

(** ** The theorems at work on the concrete cluster *)

Lemma resolver_priority_and_exclusion_witness :
  (hasNoAddress exNode3
   ∧ fst <$> getNodeAddresses ([exNode1] ++ exNode3 :: [exNode2])
     = fst <$> getNodeAddresses ([exNode1] ++ [exNode2]))
  ∧ ∃ n, n ∈ [exNode1; exNode2; exNode3]
         ∧ TargetRef {| IP := "203.0.113.5";
                        TargetRef := Some {| ref_Kind := "Node"; ref_Name := "master-2";
                                             ref_UID := ""; ref_APIVersion := "" |} |}
           = Some {| ref_Kind := "Node";
                     ref_Name := Name (node_meta n);
                     ref_UID := UID (node_meta n);
                     ref_APIVersion := node_APIVersion n |}
         ∧ ({| Type_ := NodeInternalIP; Address := "203.0.113.5" |} ∈ node_Addresses n
            ∨ ((∀ x, x ∈ node_Addresses n → Type_ x ≠ NodeInternalIP)
               ∧ {| Type_ := NodeExternalIP; Address := "203.0.113.5" |}
                   ∈ node_Addresses n)).
Proof.
  assert (hasNoAddress exNode3) as Hno by (split; reflexivity).
  split; [split; [exact Hno|]|].
  - exact (proj2 (proj2 (proj2 resolver_priority_and_exclusion))
             [exNode1] [exNode2] exNode3 Hno).
  - refine (proj1 (proj2 (proj2 resolver_priority_and_exclusion))
              [exNode1; exNode2; exNode3]
              [{| IP := "10.0.0.1";
                  TargetRef := Some {| ref_Kind := "Node"; ref_Name := "master-1";
                                       ref_UID := ""; ref_APIVersion := "" |} |};
               {| IP := "203.0.113.5";
                  TargetRef := Some {| ref_Kind := "Node"; ref_Name := "master-2";
                                       ref_UID := ""; ref_APIVersion := "" |} |}]
              [Wrap (Errorf "host address unknown")
                 "failed to determine hostname for node (master-3)"]
              _ _ _).
    + vm_compute. reflexivity.
    + right. left.
Defined.

Lemma built_record_single_subset_witness :
  ∃ addresses errs sub,
    getNodeAddresses [exNode1; exNode2; exNode3] = Some (addresses, errs)
    ∧ length addresses = 2
    ∧ Subsets (spec_build exService addresses) = [sub]
    ∧ length (Ports sub) = 1
    ∧ LabelQuery.syncNodeEndpoints "kube-system" "kube-scheduler-prometheus-discovery"
        "role=controlplane" exWorld
      = (r ← CreateOrUpdateEndpoints "kube-system" (spec_build exService addresses);
         mret (errorsWrap r.1 "synchronizing kubelet endpoints object failed"))
          (mkWorld exCluster
             [(CallServicesGet "kube-system" "kube-scheduler-prometheus-discovery", None);
              (CallNodesList "role=controlplane", None)]
             ((DebugLevel, "starting sync of kube-scheduler-prometheus-discovery")
                :: warnEntries errs)).
Proof.
  destruct (built_record_single_subset (σ := FakeCluster) exService
              [exNode1; exNode2; exNode3])
    as (addresses & errs & sub & Hres & Hlen & Hsub & Hports & _ & _ & Hlabel & _).
  exists addresses, errs, sub.
  split; [exact Hres|]. split; [exact Hlen|]. split; [exact Hsub|].
  split; [exact Hports|].
  exact (Hlabel "kube-system" "kube-scheduler-prometheus-discovery" "role=controlplane"
           exWorld exCluster exCluster eq_refl eq_refl).
Defined.

Lemma apply_create_or_update_witness :
  (∃ r c2,
     Endpoints_Create "kube-system" (spec_build exService []) exCluster = (r, c2)
     ∧ CreateOrUpdateEndpoints "kube-system" (spec_build exService []) exWorld
       = Some ((errorsWrap (errOf r) "creating kubelet endpoints object failed",
                spec_build exService []),
               mkWorld c2
                 [(CallEndpointsGet "kube-system" "kube-scheduler-prometheus-discovery",
                   Some (notFound "endpoints" "kube-scheduler-prometheus-discovery"));
                  (CallEndpointsCreate "kube-system" (spec_build exService []), errOf r)]
                 []))
  ∧ (∃ r c2 eps',
       eps' = setResourceVersion (ResourceVersion (eps_meta exStored))
                (spec_build exService [])
       ∧ ResourceVersion (eps_meta eps') = ResourceVersion (eps_meta exStored)
       ∧ Endpoints_Update "kube-system" eps' exClusterStored = (r, c2)
       ∧ CreateOrUpdateEndpoints "kube-system" (spec_build exService []) exWorldStored
         = Some ((errorsWrap (errOf r) "updating kubelet endpoints object failed", eps'),
                 mkWorld c2
                   [(CallEndpointsGet "kube-system" "kube-scheduler-prometheus-discovery",
                     None);
                    (CallEndpointsUpdate "kube-system" eps', errOf r)]
                   [])).
Proof.
  split.
  - exact (proj1 (apply_create_or_update "kube-system" (spec_build exService []) exWorld)
             (notFound "endpoints" "kube-scheduler-prometheus-discovery") exCluster
             eq_refl eq_refl).
  - exact (proj1 (proj2 (apply_create_or_update "kube-system" (spec_build exService [])
                           exWorldStored))
             exStored exClusterStored eq_refl).
Defined.

Lemma fault_isolation_witness :
  ∃ e w2,
    StaticMapping.syncAndLog [exRoleBad; exRole] exWorld = Some ((), w2)
    ∧ (ErrorLevel, Error e) ∈ logs w2
    ∧ ∃ pre c, calls w2 = pre ++ [(c, None)] ∧ isWrite c = true.
Proof.
  eexists _, _.
  refine (proj1 (proj2 (proj2 fault_isolation)) exRoleBad exRole exWorld _ _ _ _ _ _ _).
  - discriminate.
  - discriminate.
  - vm_compute. reflexivity.
  - vm_compute. reflexivity.
Defined.

Lemma apply_twice_same_content_witness :
  ∃ w1 w2 service eps g first stored1 stored2,
    eps = spec_build service (omap spec_resolved (nodesOf (cluster exWorld) "role=controlplane"))
    ∧ calls w1 = calls exWorld
                 ++ [(CallServicesGet "kube-system" "kube-scheduler-prometheus-discovery", None);
                     (CallNodesList "role=controlplane", None);
                     (CallEndpointsGet (Namespace (svc_meta service))
                        (Name (svc_meta service)), g);
                     (first, None)]
    ∧ (first = CallEndpointsCreate (Namespace (svc_meta service)) eps
       ∨ ∃ old, first = CallEndpointsUpdate (Namespace (svc_meta service))
                          (setResourceVersion (ResourceVersion (eps_meta old)) eps))
    ∧ calls w2 = calls w1
                 ++ [(CallServicesGet "kube-system" "kube-scheduler-prometheus-discovery", None);
                     (CallNodesList "role=controlplane", None);
                     (CallEndpointsGet (Namespace (svc_meta service))
                        (Name (svc_meta service)), None);
                     (CallEndpointsUpdate (Namespace (svc_meta service))
                        (setResourceVersion (ResourceVersion (eps_meta stored1)) eps),
                      None)]
    ∧ endpointsOf (cluster w1) (Namespace (svc_meta service)) (Name (svc_meta service))
      = Some stored1
    ∧ endpointsOf (cluster w2) (Namespace (svc_meta service)) (Name (svc_meta service))
      = Some stored2
    ∧ Subsets stored1 = Subsets eps
    ∧ Subsets stored2 = Subsets stored1.
Proof.
  eexists _, _.
  refine (apply_twice_same_content "kube-system" "kube-scheduler-prometheus-discovery"
            "role=controlplane" exWorld _ _ _ _).
  - vm_compute. reflexivity.
  - vm_compute. reflexivity.
Defined.

Lemma static_startup_validation_witness :
  (∃ msg, StaticMapping.main exArgsMalformed = [StaticMapping.LogErrorf msg])
  ∧ StaticMapping.main exArgs
    = [StaticMapping.GetKubeClient; StaticMapping.ListenAndServe;
       StaticMapping.PeriodicSyncer
         (StaticMapping.parseFlags exArgs StaticMapping.serviceList);
       StaticMapping.WaitShutdown].
Proof.
  split.
  - refine (proj1 (proj2 (static_startup_validation exArgsMalformed)) _).
    apply Exists_cons_hd. split; [discriminate|].
    unfold wellFormed. vm_compute. discriminate.
  - refine (proj1 (static_startup_validation exArgs) _).
    apply (bool_decide_unpack _). vm_compute. exact I.
Defined.

Lemma accessors_safe_after_validation_witness :
  (∃ namespace name,
     Split (StaticMapping.service exRole) slash = [namespace; name]
     ∧ StaticMapping.Namespace exRole = Some namespace
     ∧ StaticMapping.Service_ exRole = Some name)
  ∧ StaticMapping.Service_ exRoleMalformed = None
  ∧ StaticMapping.syncNodeEndpoints exRoleMalformed exWorld = None
  ∧ is_Some (StaticMapping.syncAndLog
               (StaticMapping.parseFlags exArgs StaticMapping.serviceList) exWorld).
Proof.
  split; [|split; [|split]].
  - refine (proj1 accessors_safe_after_validation exRole _).
    unfold wellFormed. vm_compute. reflexivity.
  - refine (proj1 (proj1 (proj2 (proj2 accessors_safe_after_validation))
                     exRoleMalformed _)).
    vm_compute. reflexivity.
  - refine (proj2 (proj1 (proj2 (proj2 accessors_safe_after_validation))
                     exRoleMalformed _) FakeCluster fakeClient exWorld).
    vm_compute. reflexivity.
  - refine (proj1 (proj2 (proj2 (proj2 accessors_safe_after_validation)))
              (StaticMapping.parseFlags exArgs StaticMapping.serviceList) _
              FakeCluster fakeClient exWorld).
    vm_compute. reflexivity.
Defined.

Lemma stopRun : run LabelQuery.syncAndLog (initSched emptyWorld) stopTrace stopState.
Proof.
  unfold stopTrace.
  eapply run_front; [by apply step_first|]. cbn.
  eapply run_front; [by eapply step_end; [done|vm_compute; reflexivity]|]. cbn.
  eapply run_front; [by apply step_newticker|]. cbn.
  eapply run_front; [by apply step_stop|]. cbn.
  apply run_nil.
Qed.

Lemma scheduler_cycles_witness :
  (∀ s', ¬ step LabelQuery.syncAndLog stopState CycleBegin s')
  ∧ step LabelQuery.syncAndLog stopState Return
      (mkSched Done (world stopState) (now stopState) (stopc stopState) None
         (tickC stopState)).
Proof.
  destruct (proj2 (proj2 (scheduler_cycles LabelQuery.syncAndLog emptyWorld))
              stopTrace stopState stopRun)
    as (_ & _ & _ & _ & _ & _ & _ & Hstop & _).
  exact (Hstop eq_refl eq_refl eq_refl).
Defined.

(** The scenario of the specification, run for one cycle of the label-query
    variant: the stored record has one subset with the declared port and the
    two resolvable addresses. *)
Example concrete_scenario :
  ∃ w, LabelQuery.syncNodeEndpoints "kube-system" "kube-scheduler-prometheus-discovery"
         "role=controlplane" exWorld = Some (None, w)
       ∧ (λ e, (λ s, (IP <$> Addresses s,
                      (λ p, (port_Name p, port_Port p)) <$> Ports s)) <$> Subsets e)
           <$> fc_endpoints (cluster w) !! ("kube-system", "kube-scheduler-prometheus-discovery")
         = Some [(["10.0.0.1"; "203.0.113.5"], [("http-metrics", 10251%Z)])].
Proof. eexists. split; vm_compute; reflexivity. Qed.

(** A target without separator reaches the unguarded index and panics. *)
Example unvalidated_target_panics :
  StaticMapping.checkServices [exRoleMalformed] ≠ None
  ∧ StaticMapping.syncAndLog [exRoleMalformed] exWorld = None.
Proof. split; [vm_compute; discriminate|vm_compute; reflexivity]. Qed.

(** * Further properties of the code *)

(** ** The resolver *)

(** X1. The map [nodeAddress] returns next to the address groups the node's
    addresses by type: a type is a key exactly when the node has an address
    of that type, and its entry lists those addresses in the order of
    [Status.Addresses]; no entry is an empty slice. *)
Theorem nodeAddress_groups_by_type (n : Node) :
  ∃ a m e,
    nodeAddress n = Some (a, m, e)
    ∧ (∀ t, m !! t = match addressesOfType t n with [] => None | l => Some l end)
    ∧ (∀ t, default [] (m !! t) = addressesOfType t n)
    ∧ (∀ t, m !! t ≠ Some []).
Proof.
  rewrite nodeAddress_spec. eexists _, _, _. split; [reflexivity|].
  split; [apply addrMap_lookup|]. split.
  - intros t. rewrite addrMap_lookup. by destruct (addressesOfType t n).
  - intros t. rewrite addrMap_lookup. by destruct (addressesOfType t n).
Qed.

(** X2. Every address [getNodeAddresses] returns belongs to a listed node:
    it refers to that node by kind, name, UID and API version, and its IP is
    an address the node carries with type internal, or with type external
    when the node has no internal one.  Addresses of other types (host
    names) are never returned. *)
Theorem returned_addresses_belong_to_nodes (nodes : list Node) addresses errs a :
  getNodeAddresses nodes = Some (addresses, errs) →
  a ∈ addresses →
  ∃ n, n ∈ nodes
       ∧ TargetRef a = Some {| ref_Kind := "Node";
                               ref_Name := Name (node_meta n);
                               ref_UID := UID (node_meta n);
                               ref_APIVersion := node_APIVersion n |}
       ∧ ({| Type_ := NodeInternalIP; Address := IP a |} ∈ node_Addresses n
          ∨ (addressesOfType NodeInternalIP n = []
             ∧ {| Type_ := NodeExternalIP; Address := IP a |} ∈ node_Addresses n)).
Proof.
  rewrite getNodeAddresses_spec. intros [= <- <-] Ha.
  apply list_elem_of_omap in Ha as (n & Hn & Hres).
  unfold spec_resolved in Hres.
  destruct (spec_selectAddress n) as [ip|] eqn:Hsel; [|done].
  cbn in Hres. injection Hres as <-. exists n. split; [done|]. split; [done|].
  by apply spec_selectAddress_Some.
Qed.

(** X3. [getNodeAddresses] resolves each node on its own and keeps the
    order of the list: on a concatenation it returns the addresses of the
    first part followed by those of the second, and likewise the errors. *)
Theorem getNodeAddresses_app (nodes1 nodes2 : list Node) :
  getNodeAddresses (nodes1 ++ nodes2)
  = match getNodeAddresses nodes1, getNodeAddresses nodes2 with
    | Some (a1, e1), Some (a2, e2) => Some (a1 ++ a2, e1 ++ e2)
    | _, _ => None
    end.
Proof. rewrite !getNodeAddresses_spec. by rewrite !omap_app. Qed.

(** ** A sync depends on the cluster only *)

Section Frames.
Context {σ : Type} `{!CoreV1Interface σ}.

Lemma CreateOrUpdateEndpoints_frame eclient eps (c : σ) :
  ∃ r eps' c' d,
    (∀ cs ls, CreateOrUpdateEndpoints eclient eps (mkWorld c cs ls)
              = Some ((r, eps'), mkWorld c' (cs ++ d) ls))
    ∧ applyOutcome eclient eps r d.
Proof.
  destruct (Endpoints_Get eclient (Name (eps_meta eps)) c) as [[old|e] c1] eqn:Hg.
  - destruct (Endpoints_Update eclient
                (setResourceVersion (ResourceVersion (eps_meta old)) eps) c1)
      as [r c2] eqn:Hu.
    eexists _, _, c2, _. split.
    + intros cs ls. rewrite CreateOrUpdateEndpoints_unfold. cbn. rewrite Hg. cbn zeta.
      rewrite Hu. reflexivity.
    + apply apply_updated.
  - destruct (IsNotFound (Some e)) eqn:Hnf.
    + destruct (Endpoints_Create eclient eps c1) as [r c2] eqn:Hc.
      eexists _, _, c2, _. split.
      * intros cs ls. rewrite CreateOrUpdateEndpoints_unfold. cbn. rewrite Hg, Hnf, Hc.
        reflexivity.
      * by apply apply_created.
    + eexists _, _, c1, _. split.
      * intros cs ls. rewrite CreateOrUpdateEndpoints_unfold. cbn. rewrite Hg, Hnf.
        reflexivity.
      * by apply apply_fetch_failed.
Qed.

Lemma syncService_frame service sel (c : σ) :
  ∃ r c' d l,
    (∀ cs ls, syncService service sel (mkWorld c cs ls)
              = Some (r, mkWorld c' (cs ++ d) (ls ++ l)))
    ∧ serviceOutcome service sel r d l.
Proof.
  destruct (Nodes_List sel c) as [[nodes|e] c2] eqn:Hl.
  - destruct (CreateOrUpdateEndpoints_frame (Namespace (svc_meta service))
                (spec_build service (omap spec_resolved nodes)) c2)
      as (r & eps' & c' & d & Hrun & Hout).
    eexists _, c', _, _. split.
    + intros cs ls. rewrite (syncService_listed _ _ _ nodes c2) by done.
      unfold spec_apply. runM. rewrite Hrun. cbn. rewrite <- app_assoc. reflexivity.
    + by apply service_applied.
  - exists (Some (Wrap e "listing nodes failed")), c2, [(CallNodesList sel, Some e)], [].
    split.
    + intros cs ls. rewrite (syncService_unlisted _ _ _ e c2) by done.
      cbn. by rewrite app_nil_r.
    + apply service_list_failed.
Qed.

Lemma LabelQuery_sync_frame namespace svc sel (c : σ) :
  ∃ r c' d l,
    (∀ cs ls, LabelQuery.syncNodeEndpoints namespace svc sel (mkWorld c cs ls)
              = Some (r, mkWorld c' (cs ++ d)
                           (ls ++ (DebugLevel, "starting sync of " +:+ svc) :: l)))
    ∧ syncOutcome (Services_Get namespace svc c).1 namespace svc sel r d l.
Proof.
  destruct (Services_Get namespace svc c) as [[service|e] c1] eqn:Hg.
  - destruct (syncService_frame service sel c1) as (r & c' & d & l & Hrun & Hout).
    eexists _, c', _, _. split.
    + intros cs ls. rewrite (LabelQuery_sync_fetched _ _ _ _ service c1) by done.
      rewrite Hrun. rewrite <- !app_assoc. reflexivity.
    + by eapply sync_fetched.
  - exists (Some e), c1, [(CallServicesGet namespace svc, Some e)], []. split.
    + intros cs ls. by rewrite (LabelQuery_sync_unfetched _ _ _ _ e c1) by done.
    + by apply sync_fetch_failed.
Qed.

Lemma Static_sync_frame (svc : StaticMapping.Service) namespace name (c : σ) :
  StaticMapping.Namespace svc = Some namespace →
  StaticMapping.Service_ svc = Some name →
  ∃ r c' d l,
    (∀ cs ls, StaticMapping.syncNodeEndpoints svc (mkWorld c cs ls)
              = Some (r, mkWorld c' (cs ++ d)
                           (ls ++ (DebugLevel, "starting sync of " +:+ StaticMapping.Name svc)
                               :: l)))
    ∧ syncOutcome (Services_Get namespace name c).1 namespace name
        (StaticMapping.NodeLabelSelector svc) r d l.
Proof.
  intros Hn Hs.
  destruct (Services_Get namespace name c) as [[service|e] c1] eqn:Hg.
  - destruct (syncService_frame service (StaticMapping.NodeLabelSelector svc) c1)
      as (r & c' & d & l & Hrun & Hout).
    eexists _, c', _, _. split.
    + intros cs ls. rewrite (Static_sync_fetched _ _ _ _ service c1 Hn Hs) by done.
      rewrite Hrun. rewrite <- !app_assoc. reflexivity.
    + by eapply sync_fetched.
  - exists (Some e), c1, [(CallServicesGet namespace name, Some e)], []. split.
    + intros cs ls. by rewrite (Static_sync_unfetched _ _ _ _ e c1 Hn Hs) by done.
    + by apply sync_fetch_failed.
Qed.

End Frames.

(** ** What the shape of a sync implies *)

Lemma writesDone_skip (ev : Event) (d : list Event) :
  ¬ (isWrite ev.1 = true ∧ ev.2 = None) → writesDone (ev :: d) = writesDone d.
Proof. intros Hno. unfold writesDone. by rewrite filter_cons_False. Qed.

Lemma servicesFetched_cons (ev : Event) (d : list Event) :
  servicesFetched (ev :: d)
  = match ev.1 with
    | CallServicesGet namespace name => (namespace, name) :: servicesFetched d
    | _ => servicesFetched d
    end.
Proof. by destruct ev as [[] ?]. Qed.

Lemma servicesFetched_app (d1 d2 : list Event) :
  servicesFetched (d1 ++ d2) = servicesFetched d1 ++ servicesFetched d2.
Proof. apply omap_app. Qed.

Lemma writesDone_app (d1 d2 : list Event) :
  writesDone (d1 ++ d2) = writesDone d1 ++ writesDone d2.
Proof. apply filter_app. Qed.

Lemma errorLines_app (l1 l2 : list LogEntry) :
  errorLines (l1 ++ l2) = errorLines l1 ++ errorLines l2.
Proof. apply filter_app. Qed.

Lemma errorLines_cons (entry : LogEntry) (l : list LogEntry) :
  errorLines (entry :: l)
  = if decide (entry.1 = ErrorLevel) then entry :: errorLines l else errorLines l.
Proof. unfold errorLines. by rewrite filter_cons. Qed.

Lemma applyOutcome_facts eclient eps r d :
  applyOutcome eclient eps r d →
  1 ≤ length d ≤ 2
  ∧ servicesFetched d = []
  ∧ (∀ ev k, ev ∈ d → endpointsKey ev.1 = Some k → k = (eclient, Name (eps_meta eps)))
  ∧ length (filter (λ ev, isWrite ev.1 = true) d) ≤ 1
  ∧ length (writesDone d) = match r with Some _ => 0 | None => 1 end
  ∧ ∃ c o, last d = Some (c, o)
           ∧ (r = None ↔ o = None ∧ isWrite c = true)
           ∧ (λ e, "synchronizing kubelet endpoints object failed: " +:+ Error e) <$> r
             = (λ cause, errorContext c +:+ Error cause) <$> o.
Proof.
  assert (∀ (c : Call) (r : option error) (w : bool),
            isWrite c = w →
            length (writesDone [(c, r)])
            = if w then match r with Some _ => 0 | None => 1 end else 0) as Hone.
  { intros c o [] Hc; unfold writesDone; rewrite filter_cons, filter_nil; cbn.
    - destruct o; [rewrite decide_False by (intros [? ?]; done)
                  |rewrite decide_True by done]; done.
    - rewrite decide_False by (rewrite Hc; intros [? ?]; done). done. }
  destruct 1 as [e Hnf|e r' Hnf|old r'].
  - split; [cbn; lia|]. split; [done|]. split.
    { intros ev k ->%list_elem_of_singleton [= <-]. done. }
    split; [rewrite filter_cons_False by done; cbn; lia|]. split; [by apply (Hone _ _ false)|].
    eexists _, _. split; [reflexivity|]. split; [|done].
    split; [done|intros [? ?]; done].
  - split; [cbn; lia|]. split; [done|]. split.
    { intros ev k Hev. repeat (apply elem_of_cons in Hev as [->|Hev]);
        [by intros [= <-]..|by apply elem_of_nil in Hev]. }
    split; [rewrite filter_cons_False by done; etrans; [apply length_filter|cbn; lia]|]. split.
    { change (length (writesDone ([(CallEndpointsGet eclient (Name (eps_meta eps)), Some e)]
                                  ++ [(CallEndpointsCreate eclient eps, r')]))
              = match errorsWrap r' "creating kubelet endpoints object failed" with
                | Some _ => 0 | None => 1 end).
      unfold writesDone. rewrite filter_app, length_app.
      fold (writesDone [(CallEndpointsGet eclient (Name (eps_meta eps)), Some e)]).
      fold (writesDone [(CallEndpointsCreate eclient eps, r')]).
      rewrite (Hone _ _ false), (Hone _ _ true) by done. by destruct r'. }
    eexists _, _. split; [reflexivity|]. destruct r'; split; try done.
    split; [done|intros [? ?]; done].
  - split; [cbn; lia|]. split; [done|]. split.
    { intros ev k Hev. repeat (apply elem_of_cons in Hev as [->|Hev]);
        [by intros [= <-]..|by apply elem_of_nil in Hev]. }
    split; [rewrite filter_cons_False by done; etrans; [apply length_filter|cbn; lia]|]. split.
    { change (length (writesDone ([(CallEndpointsGet eclient (Name (eps_meta eps)), None)]
                                  ++ [(CallEndpointsUpdate eclient
                                         (setResourceVersion (ResourceVersion (eps_meta old)) eps),
                                       r')]))
              = match errorsWrap r' "updating kubelet endpoints object failed" with
                | Some _ => 0 | None => 1 end).
      unfold writesDone. rewrite filter_app, length_app.
      fold (writesDone [(CallEndpointsGet eclient (Name (eps_meta eps)), None)]).
      fold (writesDone [(CallEndpointsUpdate eclient
                           (setResourceVersion (ResourceVersion (eps_meta old)) eps), r')]).
      rewrite (Hone _ _ false), (Hone _ _ true) by done. by destruct r'. }
    eexists _, _. split; [reflexivity|]. destruct r'; split; try done.
    split; [done|intros [? ?]; done].
Qed.

Lemma serviceOutcome_facts service sel r d l :
  serviceOutcome service sel r d l →
  1 ≤ length d ≤ 3
  ∧ servicesFetched d = []
  ∧ (∀ ev k, ev ∈ d → endpointsKey ev.1 = Some k →
       k = (Namespace (svc_meta service), Name (svc_meta service))
       ∧ (CallNodesList sel, None) ∈ d)
  ∧ length (filter (λ ev, isWrite ev.1 = true) d) ≤ 1
  ∧ length (writesDone d) = match r with Some _ => 0 | None => 1 end
  ∧ errorLines l = []
  ∧ ∃ c o, last d = Some (c, o)
           ∧ (r = None ↔ o = None ∧ isWrite c = true)
           ∧ Error <$> r = (λ cause, errorContext c +:+ Error cause) <$> o.
Proof.
  destruct 1 as [e|nodes r' d' Happ].
  - split; [cbn; lia|]. split; [done|]. split.
    { intros ev k ->%list_elem_of_singleton. done. }
    split; [rewrite filter_cons_False by done; cbn; lia|].
    split. { by rewrite writesDone_skip by (intros [? ?]; done). }
    split; [done|].
    eexists _, _. split; [reflexivity|]. split; [|done].
    split; [done|intros [? ?]; done].
  - apply applyOutcome_facts in Happ
      as (Hlen & Hfetch & Hkey & Hw & Hdone & c & o & Hlast & Hiff & Hmsg).
    split; [cbn [length]; lia|]. split; [done|]. split.
    { intros ev k [->|Hev]%elem_of_cons Hk; [done|].
      split; [by apply (Hkey ev)|left]. }
    split. { by rewrite filter_cons_False by done. }
    split. { rewrite writesDone_skip by (intros [? ?]; done).
             rewrite Hdone. by destruct r'. }
    split. { unfold errorLines, warnEntries. induction (omap spec_rejected nodes); [done|].
             by rewrite fmap_cons, filter_cons_False. }
    exists c, o. split.
    { destruct d'; [done|]. done. }
    split; [rewrite <- Hiff; destruct r'; cbn; split; done|].
    rewrite <- Hmsg. by destruct r'.
Qed.

Lemma syncOutcome_facts fetch namespace name sel r d l :
  syncOutcome fetch namespace name sel r d l →
  1 ≤ length d ≤ 4
  ∧ servicesFetched d = [(namespace, name)]
  ∧ (∀ ev k, ev ∈ d → endpointsKey ev.1 = Some k →
       ∃ service, fetch = Ok service
                  ∧ k = (Namespace (svc_meta service), Name (svc_meta service))
                  ∧ (CallNodesList sel, None) ∈ d)
  ∧ length (filter (λ ev, isWrite ev.1 = true) d) ≤ 1
  ∧ length (writesDone d) = match r with Some _ => 0 | None => 1 end
  ∧ errorLines l = []
  ∧ ∃ c o, last d = Some (c, o)
           ∧ (r = None ↔ o = None ∧ isWrite c = true)
           ∧ Error <$> r = (λ cause, errorContext c +:+ Error cause) <$> o.
Proof.
  destruct 1 as [e Hf|service r' d' l' Hf Hsvc].
  - split; [cbn; lia|]. split; [done|]. split.
    { intros ev k ->%list_elem_of_singleton. done. }
    split; [rewrite filter_cons_False by done; cbn; lia|].
    split. { by rewrite writesDone_skip by (intros [? ?]; done). }
    split; [done|].
    eexists _, _. split; [reflexivity|]. split; [|done].
    split; [done|intros [? ?]; done].
  - apply serviceOutcome_facts in Hsvc
      as (Hlen & Hfetch & Hkey & Hw & Hdone & Hl & c & o & Hlast & Hiff & Hmsg).
    split; [cbn [length]; lia|]. split; [by rewrite servicesFetched_cons, Hfetch|]. split.
    { intros ev k [->|Hev]%elem_of_cons Hk; [done|].
      destruct (Hkey ev k Hev Hk) as [-> Hin]. exists service.
      split; [done|]. split; [done|]. by right. }
    split. { by rewrite filter_cons_False by done. }
    split. { by rewrite writesDone_skip by (intros [? ?]; done). }
    split; [done|].
    exists c, o. split; [|done]. destruct d'; [cbn in Hlen; lia|done].
Qed.

Section SyncProperties.
Context {σ : Type} `{!CoreV1Interface σ}.

(** X4. A sync of one service, against any client, returns after at least
    one and at most four client calls, the first being the fetch of the
    service; at most one of them is a write of an endpoints object; and it
    reports no error exactly when its last call is such a write and that
    write succeeded. *)
Theorem sync_call_protocol namespace svc sel (w : World σ) :
  ∃ r w' d,
    LabelQuery.syncNodeEndpoints namespace svc sel w = Some (r, w')
    ∧ calls w' = calls w ++ d
    ∧ 1 ≤ length d ≤ 4
    ∧ servicesFetched d = [(namespace, svc)]
    ∧ length (filter (λ ev, isWrite ev.1 = true) d) ≤ 1
    ∧ (r = None ↔ ∃ c, last d = Some (c, None) ∧ isWrite c = true).
Proof.
  destruct w as [c cs ls].
  destruct (LabelQuery_sync_frame namespace svc sel c) as (r & c' & d & l & Hrun & Hout).
  apply syncOutcome_facts in Hout
    as (Hlen & Hfetch & _ & Hw & _ & _ & call & o & Hlast & Hiff & _).
  eexists r, _, d. split; [apply Hrun|]. split; [done|]. split; [done|].
  split; [done|]. split; [done|]. rewrite Hiff, Hlast. split.
  - intros [-> Hc]. eauto.
  - intros (c0 & [= -> ->] & Hc). done.
Qed.

(** X5. Every call a sync makes on endpoints (get, create or update)
    addresses the object that has the namespace and the name of the service
    object the fetch returned, and is made only after that fetch and the
    listing of the nodes both succeeded: the sync's first call is the fetch
    and its second the listing, both without error, and the call on
    endpoints comes after these two. *)
Theorem sync_endpoints_calls_address_service namespace svc sel (w : World σ) :
  ∃ r w' d,
    LabelQuery.syncNodeEndpoints namespace svc sel w = Some (r, w')
    ∧ calls w' = calls w ++ d
    ∧ ∀ i ev k, d !! i = Some ev → endpointsKey ev.1 = Some k →
        ∃ service,
          (Services_Get namespace svc (cluster w)).1 = Ok service
          ∧ k = (Namespace (svc_meta service), Name (svc_meta service))
          ∧ d !! 0 = Some (CallServicesGet namespace svc, None)
          ∧ d !! 1 = Some (CallNodesList sel, None)
          ∧ 2 ≤ i.
Proof.
  destruct w as [c cs ls].
  destruct (LabelQuery_sync_frame namespace svc sel c) as (r & c' & d & l & Hrun & Hout).
  pose proof Hout as Hshape.
  apply syncOutcome_facts in Hout as (_ & _ & Hkey & _).
  eexists r, _, d. split; [apply Hrun|]. split; [done|].
  intros i ev k Hev Hk.
  destruct (Hkey ev k (list_elem_of_lookup_2 _ _ _ Hev) Hk) as (service & Hf & -> & _).
  exists service. split; [cbn in *; congruence|]. split; [done|].
  destruct Hshape as [e Hfail|service' r' d' l' _ Hsvc]; [congruence|].
  destruct Hsvc as [e|nodes r'' d'' Happ].
  - destruct i as [|[|i]]; cbn in Hev; simplify_eq; cbn in Hk; done.
  - split; [done|]. split; [done|].
    destruct i as [|[|i]]; [cbn in Hev; simplify_eq; cbn in Hk; done..|lia].
Qed.

(** X6. The error a sync returns is the error of its last call together
    with the context of the stage that made the call: none for the fetch of
    the service, which is returned as it came, [listing nodes failed] for
    the listing, and [synchronizing ... failed] followed by [retrieving],
    [creating] or [updating ... failed] for the calls on endpoints. *)
Theorem sync_error_names_stage namespace svc sel (w : World σ) :
  ∃ r w' d c o,
    LabelQuery.syncNodeEndpoints namespace svc sel w = Some (r, w')
    ∧ calls w' = calls w ++ d
    ∧ last d = Some (c, o)
    ∧ Error <$> r = (λ cause, errorContext c +:+ Error cause) <$> o.
Proof.
  destruct w as [c cs ls].
  destruct (LabelQuery_sync_frame namespace svc sel c) as (r & c' & d & l & Hrun & Hout).
  apply syncOutcome_facts in Hout as (_ & _ & _ & _ & _ & _ & call & o & Hlast & _ & Hmsg).
  eexists r, _, d, call, o. split; [apply Hrun|]. done.
Qed.

End SyncProperties.

(** ** Whole cycles *)

Section CycleProperties.
Context {σ : Type} `{!CoreV1Interface σ}.

Lemma logged_frame (r : option error) (c : σ) cs ls :
  logged r (mkWorld c cs ls)
  = mkWorld c cs (ls ++ match r with Some e => [(ErrorLevel, Error e)] | None => [] end).
Proof. destruct r; cbn; [done|by rewrite app_nil_r]. Qed.

Lemma LabelQuery_loop_frame (items : list ServiceObj) (c : σ) :
  ∃ c' d l,
    (∀ cs ls, LabelQuery.syncAndLog_loop items (mkWorld c cs ls)
              = Some ((), mkWorld c' (cs ++ d) (ls ++ l)))
    ∧ servicesFetched d = serviceKey <$> annotated items
    ∧ length (errorLines l) + length (writesDone d) = length items.
Proof.
  revert c. induction items as [|svc items IH]; intros c.
  - exists c, [], []. split; [|done]. intros cs ls. cbn. by rewrite !app_nil_r.
  - unfold annotated. rewrite filter_cons.
    destruct (Annotations (svc_meta svc) !! LabelQuery.nodeSelectorLabel) as [sel|] eqn:Ha.
    + rewrite decide_True by done.
      destruct (LabelQuery_sync_frame (Namespace (svc_meta svc)) (Name (svc_meta svc)) sel c)
        as (r & c1 & d1 & l1 & Hrun & Hout).
      apply syncOutcome_facts in Hout as (_ & Hfetch & _ & _ & Hdone & Hl & _).
      destruct (IH c1) as (c' & d & l & Hloop & Hf & Hacc).
      exists c', (d1 ++ d),
        (((DebugLevel, "starting sync of " +:+ Name (svc_meta svc)) :: l1)
           ++ match r with Some e => [(ErrorLevel, Error e)] | None => [] end ++ l).
      split; [|split].
      * intros cs ls.
        rewrite (LabelQuery_loop_cons _ _ _ _ _ _ Ha (Hrun cs ls)), logged_frame, Hloop.
        by rewrite <- !app_assoc.
      * by rewrite servicesFetched_app, Hfetch, Hf.
      * rewrite !errorLines_app, writesDone_app, !length_app.
        change ((DebugLevel, "starting sync of " +:+ Name (svc_meta svc)) :: l1)
          with ([(DebugLevel, "starting sync of " +:+ Name (svc_meta svc))] ++ l1).
        rewrite errorLines_app, Hl, Hdone.
        destruct r; rewrite !errorLines_cons; repeat case_decide; try done; cbn; lia.
    + rewrite decide_False by (intros [? ?]; done).
      destruct (IH c) as (c' & d & l & Hloop & Hf & Hacc).
      exists c', d,
        ((ErrorLevel, "missing " +:+ LabelQuery.nodeSelectorLabel +:+ " label on service "
                      +:+ Name (svc_meta svc)) :: l).
      split; [|split].
      * intros cs ls. cbn [LabelQuery.syncAndLog_loop]. rewrite Ha. runM.
        rewrite Hloop. by rewrite <- app_assoc.
      * done.
      * rewrite errorLines_cons. case_decide; [cbn; lia|done].
Qed.

(** X7. A cycle of the label-query variant returns for every client.  When
    the listing of the services fails, that call is the only one and its
    error the only line logged.  Otherwise the services fetched are
    exactly the listed services that carry the node-selector annotation,
    each once and in the order of the listing, whatever the syncs before
    them did. *)
Theorem label_cycle_fetches_annotated (w : World σ) :
  ∃ w' d l,
    LabelQuery.syncAndLog w = Some ((), w')
    ∧ calls w' = calls w ++ d
    ∧ logs w' = logs w ++ l
    ∧ match (Services_List "" LabelQuery.endpointsSyncEnabledService (cluster w)).1 with
      | Ok items => servicesFetched d = serviceKey <$> annotated items
      | Err e =>
          d = [(CallServicesList "" LabelQuery.endpointsSyncEnabledService, Some e)]
          ∧ l = [(ErrorLevel, Error e)]
      end.
Proof.
  destruct w as [c cs ls]. unfold LabelQuery.syncAndLog. runM.
  destruct (Services_List "" LabelQuery.endpointsSyncEnabledService c)
    as [[items|e] c0] eqn:Hlist;
    cbn -[LabelQuery.syncAndLog_loop servicesFetched annotated].
  - destruct (LabelQuery_loop_frame items c0) as (c' & d & l & Hloop & Hf & _).
    rewrite Hloop. eexists _, ((_ :: d)), l. split; [reflexivity|]. cbn [calls logs].
    split; [by rewrite <- app_assoc|]. split; [done|].
    by rewrite servicesFetched_cons.
  - eexists _, _, _. split; [reflexivity|]. done.
Qed.

(** X8. In a cycle of the label-query variant every listed service ends in
    exactly one of two ways: an endpoints write that succeeded, or one line
    logged at error level (for a missing annotation or for a failed sync).
    The error lines and the successful writes of the cycle together number
    the services listed. *)
Theorem label_cycle_accounts_for_every_service (w : World σ) items c0 :
  Services_List "" LabelQuery.endpointsSyncEnabledService (cluster w) = (Ok items, c0) →
  ∃ w' d l,
    LabelQuery.syncAndLog w = Some ((), w')
    ∧ calls w' = calls w ++ d
    ∧ logs w' = logs w ++ l
    ∧ length (errorLines l) + length (writesDone d) = length items.
Proof.
  intros Hlist. destruct w as [c cs ls]. unfold LabelQuery.syncAndLog. runM.
  rewrite Hlist. cbn -[LabelQuery.syncAndLog_loop].
  destruct (LabelQuery_loop_frame items c0) as (c' & d & l & Hloop & _ & Hacc).
  rewrite Hloop. eexists _, ((_ :: d)), l. split; [reflexivity|]. cbn [calls logs].
  split; [by rewrite <- app_assoc|]. split; [done|].
  by rewrite writesDone_skip by (intros [? ?]; done).
Qed.

Lemma Static_loop_frame (l : list StaticMapping.Service) (c : σ) :
  Forall accepted l →
  ∃ c' d lg,
    (∀ cs ls, StaticMapping.syncAndLog l (mkWorld c cs ls)
              = Some ((), mkWorld c' (cs ++ d) (ls ++ lg)))
    ∧ servicesFetched d = omap roleKey (configured l)
    ∧ length (errorLines lg) + length (writesDone d) = length (configured l).
Proof.
  intros Hacc. revert c. induction Hacc as [|svc l Hsvc _ IH]; intros c.
  - exists c, [], []. split; [|done]. intros cs ls. cbn. by rewrite !app_nil_r.
  - unfold configured. rewrite filter_cons.
    destruct (decide (StaticMapping.service svc = "")) as [He|Hne].
    + rewrite decide_False by tauto.
      destruct (IH c) as (c' & d & lg & Hloop & Hf & Hn).
      exists c', d, lg. split; [|done]. intros cs ls.
      by rewrite Static_syncAndLog_skip.
    + rewrite decide_True by done. destruct Hsvc as [?|Hwf]; [done|].
      destruct (accessors_in_range svc Hwf) as (namespace & name & Hsplit & Hns & Hname).
      destruct (Static_sync_frame svc namespace name c Hns Hname)
        as (r & c1 & d1 & l1 & Hrun & Hout).
      apply syncOutcome_facts in Hout as (_ & Hfetch & _ & _ & Hdone & Hl & _).
      destruct (IH c1) as (c' & d & lg & Hloop & Hf & Hn).
      exists c', (d1 ++ d),
        (((DebugLevel, "starting sync of " +:+ StaticMapping.Name svc) :: l1)
           ++ match r with Some e => [(ErrorLevel, Error e)] | None => [] end ++ lg).
      split; [|split].
      * intros cs ls.
        rewrite (Static_syncAndLog_cons _ _ _ _ _ Hne (Hrun cs ls)), logged_frame, Hloop.
        by rewrite <- !app_assoc.
      * rewrite servicesFetched_app, Hfetch. cbn. unfold roleKey at 1.
        rewrite Hsplit. cbn. by rewrite Hf.
      * rewrite !errorLines_app, writesDone_app, !length_app.
        change ((DebugLevel, "starting sync of " +:+ StaticMapping.Name svc) :: l1)
          with ([(DebugLevel, "starting sync of " +:+ StaticMapping.Name svc)] ++ l1).
        rewrite errorLines_app, Hl, Hdone.
        unfold configured in *.
        destruct r; rewrite !errorLines_cons; repeat case_decide; try done; cbn; lia.
Qed.

(** X9. After the validation of [main], a cycle of the static variant
    fetches exactly the configured roles' services, each once, in the order
    of [serviceList] and under the namespace and name its target splits
    into; and each configured role ends in a successful endpoints write or
    in one line logged at error level. *)
Theorem static_cycle_fetches_configured (l : list StaticMapping.Service) (w : World σ) :
  StaticMapping.checkServices l = None →
  ∃ w' d lg,
    StaticMapping.syncAndLog l w = Some ((), w')
    ∧ calls w' = calls w ++ d
    ∧ logs w' = logs w ++ lg
    ∧ servicesFetched d = omap roleKey (configured l)
    ∧ length (servicesFetched d) = length (configured l)
    ∧ length (errorLines lg) + length (writesDone d) = length (configured l).
Proof.
  intros Hacc%checkServices_None. destruct w as [c cs ls].
  destruct (Static_loop_frame l c Hacc) as (c' & d & lg & Hloop & Hf & Hn).
  eexists _, d, lg. split; [apply Hloop|]. split; [done|]. split; [done|].
  split; [done|]. split; [|done]. rewrite Hf.
  assert (Forall wellFormed (configured l)) as Hwf.
  { apply Forall_forall. intros v [Hne Hv]%list_elem_of_filter.
    rewrite Forall_forall in Hacc. destruct (Hacc v Hv); done. }
  clear -Hwf. induction Hwf as [|v l' Hv _ IH]; [done|].
  destruct (accessors_in_range v Hv) as (namespace & name & Hsplit & _).
  cbn. unfold roleKey at 1. rewrite Hsplit. cbn. by rewrite IH.
Qed.

End CycleProperties.

(** ** The static mapping *)

Lemma Split_two (s : string) (sep : Ascii.ascii) (a b : string) :
  Split s sep = [a; b] ↔ s = a +:+ String sep b ∧ Count a sep = 0 ∧ Count b sep = 0.
Proof.
  split.
  - revert a. induction s as [|c s IH]; intros a; simpl; [done|].
    destruct (decide (c = sep)) as [->|Hne].
    + intros [= <- Hrest].
      pose proof (Split_length s sep) as Hlen. rewrite Hrest in Hlen.
      assert (Count s sep = 0) as H0 by (cbn in Hlen; lia).
      rewrite (Split_no_separator _ _ H0) in Hrest. injection Hrest as ->. done.
    + destruct (Split s sep) as [|p ps] eqn:Hs; [done|].
      intros [= <- ->]. destruct (IH p eq_refl) as (-> & Hp & Hb).
      cbn. rewrite decide_False by done. done.
  - intros (-> & Ha & Hb). induction a as [|c a IH]; simpl.
    + rewrite decide_True by done. by rewrite (Split_no_separator _ _ Hb).
    + simpl in Ha. destruct (decide (c = sep)); [done|].
      by rewrite IH.
Qed.

(** X10. Started without any [-service] flag, the static variant passes
    the validation and starts the client, the listener and the syncer; every
    cycle then leaves the world as it found it: no client call, no log
    line. *)
Theorem unconfigured_operator_idles (args : gmap string string) :
  args !! "scheduler-service" = None →
  args !! "controller-manager-service" = None →
  let sl := StaticMapping.parseFlags args StaticMapping.serviceList in
  StaticMapping.main args
  = [StaticMapping.GetKubeClient; StaticMapping.ListenAndServe;
     StaticMapping.PeriodicSyncer sl; StaticMapping.WaitShutdown]
  ∧ ∀ (σ : Type) (client : CoreV1Interface σ) (w : World σ),
      StaticMapping.syncAndLog sl w = Some ((), w).
Proof.
  intros Hs Hc sl.
  assert (Forall (λ v, StaticMapping.service v = "") sl) as Hempty.
  { change sl with
      [ {| StaticMapping.NodeLabelSelector := default "" (args !! "scheduler-node-label");
           StaticMapping.service := default "" (args !! "scheduler-service");
           StaticMapping.Name := "scheduler" |};
        {| StaticMapping.NodeLabelSelector :=
             default "" (args !! "controller-manager-node-label");
           StaticMapping.service := default "" (args !! "controller-manager-service");
           StaticMapping.Name := "controller-manager" |} ].
    rewrite Hs, Hc. repeat constructor. }
  split.
  - unfold StaticMapping.main. fold sl.
    assert (StaticMapping.checkServices sl = None) as ->; [|done].
    apply checkServices_None. eapply Forall_impl; [exact Hempty|]. by left.
  - intros σ client w. induction Hempty as [|v l Hv _ IH]; [done|].
    by rewrite Static_syncAndLog_skip.
Qed.

(** X11. The validation of [main] lets a list of roles through exactly
    when every target is empty or contains exactly one separator.  A target
    with an empty namespace or an empty name, such as a lone separator,
    passes. *)
Theorem validation_counts_separators (l : list StaticMapping.Service) :
  StaticMapping.checkServices l = None
  ↔ Forall (λ v, StaticMapping.service v = ""
                 ∨ Count (StaticMapping.service v) slash = 1) l.
Proof.
  rewrite checkServices_None. apply Forall_proper; [|done].
  intros v. unfold accepted, wellFormed. rewrite Split_length.
  split; (intros [?|?]; [by left|right; lia]).
Qed.

(** X12. For a target that passed the validation, [Namespace()] and
    [Service()] are the two sides of the separator: neither contains one,
    and namespace, separator and name put together are the target.
    Conversely a namespace and a name without separator are recovered from
    the target made of them. *)
Theorem accessors_recompose :
  (∀ s : StaticMapping.Service, wellFormed s →
     ∃ namespace name,
       StaticMapping.Namespace s = Some namespace
       ∧ StaticMapping.Service_ s = Some name
       ∧ StaticMapping.service s = namespace +:+ String slash name
       ∧ Count namespace slash = 0 ∧ Count name slash = 0)
  ∧ (∀ (s : StaticMapping.Service) namespace name,
       Count namespace slash = 0 → Count name slash = 0 →
       StaticMapping.service s = namespace +:+ String slash name →
       wellFormed s
       ∧ StaticMapping.Namespace s = Some namespace
       ∧ StaticMapping.Service_ s = Some name).
Proof.
  split.
  - intros s (namespace & name & Hsplit & Hn & Hs)%accessors_in_range.
    exists namespace, name. split; [done|]. split; [done|]. by apply Split_two.
  - intros s namespace name Hn0 Hs0 Hs.
    assert (Split (StaticMapping.service s) slash = [namespace; name]) as Hsplit
      by (by apply Split_two).
    unfold wellFormed, StaticMapping.Namespace, StaticMapping.Service_.
    by rewrite Hsplit.
Qed.

Section Variants.
Context {σ : Type} `{!CoreV1Interface σ}.

(** X13. The two variants sync a service alike: for a role whose target
    splits into a namespace and a name, [syncNodeEndpoints] of the static
    variant and [syncNodeEndpoints] of the label-query variant called with
    that namespace, that name and the role's selector return the same error,
    make the same calls, leave the same cluster and log the same lines,
    except that the first line, at debug level, names the role in one and
    the service in the other. *)
Theorem variants_sync_alike (svc : StaticMapping.Service) namespace name (w : World σ) :
  StaticMapping.Namespace svc = Some namespace →
  StaticMapping.Service_ svc = Some name →
  ∃ r c' d l,
    StaticMapping.syncNodeEndpoints svc w
    = Some (r, mkWorld c' (calls w ++ d)
                 (logs w ++ (DebugLevel, "starting sync of " +:+ StaticMapping.Name svc) :: l))
    ∧ LabelQuery.syncNodeEndpoints namespace name (StaticMapping.NodeLabelSelector svc) w
      = Some (r, mkWorld c' (calls w ++ d)
                   (logs w ++ (DebugLevel, "starting sync of " +:+ name) :: l)).
Proof.
  intros Hn Hs. destruct w as [c cs ls].
  destruct (Services_Get namespace name c) as [[service|e] c1] eqn:Hg.
  - destruct (syncService_frame service (StaticMapping.NodeLabelSelector svc) c1)
      as (r & c' & d & l & Hrun & _).
    exists r, c', ((CallServicesGet namespace name, None) :: d), l.
    rewrite (Static_sync_fetched _ _ _ _ service c1 Hn Hs) by done.
    rewrite (LabelQuery_sync_fetched _ _ _ _ service c1) by done.
    rewrite !Hrun. cbn. by rewrite <- !app_assoc.
  - exists (Some e), c1, [(CallServicesGet namespace name, Some e)], [].
    rewrite (Static_sync_unfetched _ _ _ _ e c1 Hn Hs) by done.
    by rewrite (LabelQuery_sync_unfetched _ _ _ _ e c1) by done.
Qed.

End Variants.

(** ** The scheduler, further *)

Section SchedulerMore.
Context {σ : Type} (syncAndLog : M σ unit).

Lemma run_app (s s1 s2 : Sched σ) tr1 tr2 :
  run syncAndLog s tr1 s1 → run syncAndLog s1 tr2 s2 → run syncAndLog s (tr1 ++ tr2) s2.
Proof.
  intros H1 H2. induction H2 as [|tr s' l s'' Hrun IH Hstep].
  - by rewrite app_nil_r.
  - rewrite app_assoc. by eapply run_snoc.
Qed.

Lemma occurrences_cons (l x : Label) (tr : list Label) :
  occurrences l (x :: tr) = (if decide (x = l) then 1 else 0) + occurrences l tr.
Proof. unfold occurrences. rewrite filter_cons. by destruct (decide (x = l)). Qed.

(** Until the ticker is made there is exactly the first cycle and no
    ticker. *)
Lemma before_ticker_inv (w : World σ) tr s :
  run syncAndLog (initSched w) tr s →
  match pc s with
  | AtEntry => occurrences CycleBegin tr = 0 ∧ occurrences CycleEnd tr = 0
               ∧ occurrences NewTicker tr = 0 ∧ ticker s = None
  | InSync true => occurrences CycleBegin tr = 1 ∧ occurrences CycleEnd tr = 0
                   ∧ occurrences NewTicker tr = 0 ∧ ticker s = None
  | AtNewTicker => occurrences CycleBegin tr = 1 ∧ occurrences CycleEnd tr = 1
                   ∧ occurrences NewTicker tr = 0 ∧ ticker s = None
  | _ => True
  end.
Proof.
  induction 1 as [|tr s l s' Hrun IH Hstep]; [done|].
  rewrite !occurrences_snoc.
  destruct s as [p w0 n st tk tc].
  inversion Hstep; subst; cbn [pc now ticker tickC stopc world] in *; subst;
    repeat match goal with |- context [decide (?a = ?b)] =>
             destruct (decide (a = b)); try discriminate end;
    try done.
  - destruct IH as (? & ? & ? & ?). repeat split; try done; lia.
  - destruct first; [|done]. destruct IH as (? & ? & ? & ?). repeat split; try done; lia.
  - destruct p as [|[]| | |]; try done; destruct IH as (? & ? & ? & ?);
      repeat split; try done; lia.
  - destruct p as [|[]| | |]; try done; destruct IH as (? & ? & ? & ?);
      repeat split; try done; lia.
  - destruct p as [|[]| | |]; try done; destruct IH as (? & ? & ? & ?); done.
Qed.

(** After the ticker is made: no cycle begins before its first tick. *)
Lemma after_ticker_inv (s1 : Sched σ) (T : Z) tr s :
  run syncAndLog s1 tr s →
  pc s1 = AtSelect → tickC s1 = false → ticker s1 = Some T → (now s1 ≤ T)%Z →
  (pc s = InSync false ∨ pc s = AtSelect ∨ pc s = Done)
  ∧ (tickC s = true → (T ≤ now s)%Z)
  ∧ (1 ≤ occurrences CycleBegin tr → (T ≤ now s)%Z)
  ∧ (∀ t, ticker s = Some t → (T ≤ t)%Z)
  ∧ occurrences NewTicker tr = 0
  ∧ (now s1 ≤ now s)%Z.
Proof.
  intros Hrun Hpc Htc Htk HT.
  induction Hrun as [|tr s l s' Hrun IH Hstep].
  - rewrite Hpc, Htc, Htk. unfold occurrences. cbn.
    repeat split; try done; try lia; auto. intros t [= <-]. lia.
  - destruct IH as (Hp & Htick & Hbegun & Hnext & Hnew & Hmono).
    rewrite !occurrences_snoc.
    destruct s as [p w0 n st tk tc].
    inversion Hstep; subst; cbn [pc now ticker tickC stopc world] in *; subst;
      repeat match goal with |- context [decide (?a = ?b)] =>
               destruct (decide (a = b)); try discriminate end;
      try (destruct Hp as [?|[?|?]]; discriminate).
    all: try (destruct first; [destruct Hp as [?|[?|?]]; discriminate|]).
    all: try specialize (Hnext _ eq_refl).
    all: repeat split; auto; try lia.
    all: intros; simplify_eq.
    all: try (unfold tickInterval, Minute, Second in *; intuition lia).
Qed.

(** X15. The ticker is made once, after the first cycle has returned:
    up to then exactly one cycle has begun and ended and no tick has fired,
    and from then on a cycle begins only when two minutes have passed since
    the ticker was made.  The second cycle therefore starts at least two
    minutes after the first one ended, however long the first one took. *)
Theorem second_cycle_waits_for_ticker (w : World σ) tr1 s0 s1 tr2 s :
  run syncAndLog (initSched w) tr1 s0 →
  step syncAndLog s0 NewTicker s1 →
  run syncAndLog s1 tr2 s →
  occurrences CycleBegin tr1 = 1
  ∧ occurrences CycleEnd tr1 = 1
  ∧ occurrences EnvTick tr1 = 0
  ∧ occurrences NewTicker tr1 = 0
  ∧ occurrences NewTicker tr2 = 0
  ∧ ticker s1 = Some (now s1 + tickInterval)%Z
  ∧ (1 ≤ occurrences CycleBegin tr2 → (now s1 + tickInterval ≤ now s)%Z).
Proof.
  intros Hrun1 Hstep Hrun2.
  pose proof (before_ticker_inv _ _ _ Hrun1) as Hbefore.
  pose proof (schedInv_run _ _ _ _ Hrun1) as (_ & _ & Hnoticker & _).
  inversion Hstep as [| |s' Hpc| | | | |]; subst.
  rewrite Hpc in Hbefore. destruct Hbefore as (Hb & He & Hn & Htk).
  destruct (Hnoticker Htk) as [Hticks Htc]; [by rewrite Hpc|].
  assert (now s0 ≤ now s0 + tickInterval)%Z as HT
    by (unfold tickInterval, Minute, Second; lia).
  destruct (after_ticker_inv _ (now s0 + tickInterval)%Z _ _ Hrun2 eq_refl Htc eq_refl HT)
    as (_ & _ & Hbegun & _ & Hnew & _).
  cbn [now ticker]. repeat split; done.
Qed.

(** Once the stop signal is in, the goroutine can return, finishing at
    most the cycle in flight, provided cycles return. *)
Lemma can_return_after_stop (s : Sched σ) :
  (∀ w, is_Some (syncAndLog w)) →
  stopc s = true → pc s ≠ Done →
  ∃ tr s',
    run syncAndLog s tr s'
    ∧ pc s' = Done ∧ ticker s' = None
    ∧ occurrences CycleBegin tr = match pc s with AtEntry => 1 | _ => 0 end
    ∧ length tr ≤ 4.
Proof.
  intros Htotal Hstop Hpc.
  assert (∀ s0 : Sched σ, pc s0 = AtSelect → stopc s0 = true →
            ∃ tr s', run syncAndLog s0 tr s' ∧ pc s' = Done ∧ ticker s' = None
                     ∧ occurrences CycleBegin tr = 0 ∧ length tr ≤ 1) as Hsel.
  { intros s0 Hp Hs. eexists [Return], _. split.
    - eapply run_front; [by apply step_select_stop|apply run_nil].
    - done. }
  assert (∀ s0 : Sched σ, pc s0 = AtNewTicker → stopc s0 = true →
            ∃ tr s', run syncAndLog s0 tr s' ∧ pc s' = Done ∧ ticker s' = None
                     ∧ occurrences CycleBegin tr = 0 ∧ length tr ≤ 2) as Hnew.
  { intros s0 Hp Hs.
    destruct (Hsel (mkSched AtSelect (world s0) (now s0) (stopc s0)
                      (Some (now s0 + tickInterval)%Z) (tickC s0)) eq_refl Hs)
      as (tr & s' & Hrun & Hd & Htk & Hocc & Hlen).
    exists (NewTicker :: tr), s'. split.
    - eapply run_front; [by apply step_newticker|done].
    - split; [done|]. split; [done|]. split; [|cbn; lia].
      rewrite occurrences_cons, Hocc. by case_decide. }
  assert (∀ (s0 : Sched σ) first, pc s0 = InSync first → stopc s0 = true →
            ∃ tr s', run syncAndLog s0 tr s' ∧ pc s' = Done ∧ ticker s' = None
                     ∧ occurrences CycleBegin tr = 0 ∧ length tr ≤ 3) as Hsync.
  { intros s0 first Hp Hs.
    destruct (Htotal (world s0)) as [[[] w'] Hw].
    destruct first.
    - destruct (Hnew (mkSched AtNewTicker w' (now s0) (stopc s0) (ticker s0) (tickC s0))
                  eq_refl Hs)
        as (tr & s' & Hrun & Hd & Htk & Hocc & Hlen).
      exists (CycleEnd :: tr), s'. split.
      + eapply run_front; [|exact Hrun].
        by apply (step_end _ s0 true w').
      + split; [done|]. split; [done|]. split; [|cbn; lia].
      rewrite occurrences_cons, Hocc. by case_decide.
    - destruct (Hsel (mkSched AtSelect w' (now s0) (stopc s0) (ticker s0) (tickC s0))
                  eq_refl Hs)
        as (tr & s' & Hrun & Hd & Htk & Hocc & Hlen).
      exists (CycleEnd :: tr), s'. split.
      + eapply run_front; [|exact Hrun].
        by apply (step_end _ s0 false w').
      + split; [done|]. split; [done|]. split; [|cbn; lia].
      rewrite occurrences_cons, Hocc. by case_decide. }
  destruct (pc s) as [|first| | |] eqn:Hp; [| | | |done].
  - destruct (Hsync (mkSched (InSync true) (world s) (now s) (stopc s) (ticker s) (tickC s))
                true eq_refl Hstop) as (tr & s' & Hrun & Hd & Htk & Hocc & Hlen).
    exists (CycleBegin :: tr), s'. split.
    + eapply run_front; [by apply step_first|done].
    + split; [done|]. split; [done|]. split; [|cbn; lia].
      rewrite occurrences_cons, Hocc. by case_decide.
  - destruct (Hsync s first Hp Hstop) as (tr & s' & ? & ? & ? & ? & ?).
    exists tr, s'. repeat split; try done; lia.
  - destruct (Hnew s Hp Hstop) as (tr & s' & ? & ? & ? & ? & ?).
    exists tr, s'. repeat split; try done; lia.
  - destruct (Hsel s Hp Hstop) as (tr & s' & ? & ? & ? & ? & ?).
    exists tr, s'. repeat split; try done; lia.
Qed.

End SchedulerMore.

Lemma string_append_assoc (a b c : string) : (a +:+ b) +:+ c = a +:+ (b +:+ c).
Proof.
  induction a as [|x a IH]; [done|].
  change (String x ((a +:+ b) +:+ c) = String x (a +:+ (b +:+ c))). by rewrite IH.
Qed.

Section StopHonoured.
Context {σ : Type} `{!CoreV1Interface σ}.

Lemma LabelQuery_syncAndLog_total (w : World σ) : is_Some (LabelQuery.syncAndLog w).
Proof.
  destruct w as [c cs ls]. unfold LabelQuery.syncAndLog. runM.
  destruct (Services_List "" LabelQuery.endpointsSyncEnabledService c) as [[items|e] c0];
    cbn -[LabelQuery.syncAndLog_loop]; [|by eexists].
  destruct (LabelQuery_loop_frame items c0) as (c' & d & l & Hloop & _).
  rewrite Hloop. by eexists.
Qed.

(** X14. Once the stop signal is in, [periodicSyncer] can always return
    after finishing at most the cycle that is in flight (or the first cycle,
    if it had not yet begun it): within four steps of its own, with no
    further cycle begun and the ticker stopped.  This holds for the
    label-query variant against any client, and for the static variant
    after the validation of [main]. *)
Theorem stop_is_honoured :
  (∀ s : Sched σ,
     stopc s = true → pc s ≠ Done →
     ∃ tr s',
       run LabelQuery.syncAndLog s tr s'
       ∧ pc s' = Done ∧ ticker s' = None
       ∧ occurrences CycleBegin tr = match pc s with AtEntry => 1 | _ => 0 end
       ∧ length tr ≤ 4)
  ∧ (∀ (l : list StaticMapping.Service) (s : Sched σ),
       StaticMapping.checkServices l = None →
       stopc s = true → pc s ≠ Done →
       ∃ tr s',
         run (StaticMapping.syncAndLog l) s tr s'
         ∧ pc s' = Done ∧ ticker s' = None
         ∧ occurrences CycleBegin tr = match pc s with AtEntry => 1 | _ => 0 end
         ∧ length tr ≤ 4).
Proof.
  split.
  - intros s. apply can_return_after_stop. apply LabelQuery_syncAndLog_total.
  - intros l s Hok. apply can_return_after_stop. intros w.
    apply Static_syncAndLog_total. by apply checkServices_None.
Qed.

(** X16. A sync whose fetch and node listing succeed logs, after its debug
    line, exactly one warning for each listed node that has neither an
    internal nor an external address, in the order of the listing and
    naming the node, and nothing else, whether the apply then succeeds or
    fails. *)
Theorem sync_warns_once_per_excluded_node namespace svc sel (w : World σ)
    service c1 nodes c2 :
  Services_Get namespace svc (cluster w) = (Ok service, c1) →
  Nodes_List sel c1 = (Ok nodes, c2) →
  ∃ r w',
    LabelQuery.syncNodeEndpoints namespace svc sel w = Some (r, w')
    ∧ logs w'
      = logs w
        ++ (DebugLevel, "starting sync of " +:+ svc)
           :: ((λ n, (WarnLevel,
                      "error getting node address: failed to determine hostname for node ("
                      +:+ Name (node_meta n) +:+ "): host address unknown"))
                 <$> filter hasNoAddress nodes).
Proof.
  intros Hg Hl.
  rewrite (LabelQuery_sync_fetched _ _ _ _ service c1 Hg).
  rewrite (syncService_listed _ _ _ nodes c2) by done.
  unfold spec_apply. runM.
  destruct (CreateOrUpdateEndpoints_frame (Namespace (svc_meta service))
              (spec_build service (omap spec_resolved nodes)) c2)
    as (r & eps' & c' & d & Hrun & _).
  rewrite Hrun. eexists _, _. split; [reflexivity|]. cbn. rewrite <- app_assoc. cbn.
  do 2 f_equal. rewrite omap_rejected_filter. unfold warnEntries.
  rewrite <- list_fmap_compose. apply list_fmap_ext. intros _ n _. cbn.
  f_equal. unfold nodeError. cbn.
  rewrite !string_append_assoc. reflexivity.
Qed.

End StopHonoured.

(** ** The further properties on the concrete cluster *)

Lemma returned_addresses_belong_to_nodes_witness :
  ∃ n, n ∈ [exNode1; exNode2; exNode3]
       ∧ TargetRef (nodeEndpointAddress exNode2 "203.0.113.5")
         = Some {| ref_Kind := "Node";
                   ref_Name := Name (node_meta n);
                   ref_UID := UID (node_meta n);
                   ref_APIVersion := node_APIVersion n |}
       ∧ ({| Type_ := NodeInternalIP;
             Address := IP (nodeEndpointAddress exNode2 "203.0.113.5") |}
            ∈ node_Addresses n
          ∨ (addressesOfType NodeInternalIP n = []
             ∧ {| Type_ := NodeExternalIP;
                  Address := IP (nodeEndpointAddress exNode2 "203.0.113.5") |}
                 ∈ node_Addresses n)).
Proof.
  refine (returned_addresses_belong_to_nodes [exNode1; exNode2; exNode3]
            [nodeEndpointAddress exNode1 "10.0.0.1";
             nodeEndpointAddress exNode2 "203.0.113.5"]
            [nodeError exNode3 (Errorf "host address unknown")]
            (nodeEndpointAddress exNode2 "203.0.113.5") _ _).
  - vm_compute. reflexivity.
  - right. left.
Defined.

Lemma label_cycle_accounts_for_every_service_witness :
  ∃ w' d l,
    LabelQuery.syncAndLog exWorld = Some ((), w')
    ∧ calls w' = calls exWorld ++ d
    ∧ logs w' = logs exWorld ++ l
    ∧ length (errorLines l) + length (writesDone d) = length [exService; exServiceBad].
Proof.
  refine (label_cycle_accounts_for_every_service exWorld [exService; exServiceBad]
            exCluster _).
  vm_compute. reflexivity.
Defined.

Lemma static_cycle_fetches_configured_witness :
  ∃ w' d lg,
    StaticMapping.syncAndLog [exRoleBad; exRole] exWorld = Some ((), w')
    ∧ calls w' = calls exWorld ++ d
    ∧ logs w' = logs exWorld ++ lg
    ∧ servicesFetched d = omap roleKey (configured [exRoleBad; exRole])
    ∧ length (servicesFetched d) = length (configured [exRoleBad; exRole])
    ∧ length (errorLines lg) + length (writesDone d)
      = length (configured [exRoleBad; exRole]).
Proof.
  refine (static_cycle_fetches_configured [exRoleBad; exRole] exWorld _).
  vm_compute. reflexivity.
Defined.

Lemma unconfigured_operator_idles_witness :
  StaticMapping.main ∅
  = [StaticMapping.GetKubeClient; StaticMapping.ListenAndServe;
     StaticMapping.PeriodicSyncer (StaticMapping.parseFlags ∅ StaticMapping.serviceList);
     StaticMapping.WaitShutdown]
  ∧ ∀ (σ : Type) (client : CoreV1Interface σ) (w : World σ),
      StaticMapping.syncAndLog (StaticMapping.parseFlags ∅ StaticMapping.serviceList) w
      = Some ((), w).
Proof.
  refine (unconfigured_operator_idles ∅ _ _); reflexivity.
Defined.

Lemma accessors_recompose_witness :
  (∃ namespace name,
     StaticMapping.Namespace exRole = Some namespace
     ∧ StaticMapping.Service_ exRole = Some name
     ∧ StaticMapping.service exRole = namespace +:+ String slash name
     ∧ Count namespace slash = 0 ∧ Count name slash = 0)
  ∧ (wellFormed exRole
     ∧ StaticMapping.Namespace exRole = Some "kube-system"
     ∧ StaticMapping.Service_ exRole = Some "kube-scheduler-prometheus-discovery").
Proof.
  split.
  - refine (proj1 accessors_recompose exRole _). vm_compute. reflexivity.
  - refine (proj2 accessors_recompose exRole "kube-system"
              "kube-scheduler-prometheus-discovery" _ _ _); vm_compute; reflexivity.
Defined.

Lemma variants_sync_alike_witness :
  ∃ r c' d l,
    StaticMapping.syncNodeEndpoints exRole exWorld
    = Some (r, mkWorld c' (calls exWorld ++ d)
                 (logs exWorld ++ (DebugLevel, "starting sync of " +:+ StaticMapping.Name exRole)
                    :: l))
    ∧ LabelQuery.syncNodeEndpoints "kube-system" "kube-scheduler-prometheus-discovery"
        (StaticMapping.NodeLabelSelector exRole) exWorld
      = Some (r, mkWorld c' (calls exWorld ++ d)
                   (logs exWorld
                      ++ (DebugLevel, "starting sync of "
                                      +:+ "kube-scheduler-prometheus-discovery") :: l)).
Proof.
  refine (variants_sync_alike exRole "kube-system" "kube-scheduler-prometheus-discovery"
            exWorld _ _); vm_compute; reflexivity.
Defined.

Lemma stop_is_honoured_witness :
  ∃ tr s',
    run LabelQuery.syncAndLog raceState tr s'
    ∧ pc s' = Done ∧ ticker s' = None
    ∧ occurrences CycleBegin tr = 0
    ∧ length tr ≤ 4.
Proof.
  refine (proj1 (stop_is_honoured (σ := FakeCluster)) raceState _ _).
  - reflexivity.
  - discriminate.
Defined.

Lemma firstCycleRun :
  run LabelQuery.syncAndLog (initSched emptyWorld) [CycleBegin; CycleEnd] beforeTicker.
Proof.
  eapply run_front; [by apply step_first|]. cbn.
  eapply run_front; [by eapply step_end; [done|vm_compute; reflexivity]|]. cbn.
  apply run_nil.
Qed.

Lemma tickerStep : step LabelQuery.syncAndLog beforeTicker NewTicker afterTicker.
Proof. by apply (step_newticker _ beforeTicker). Qed.

Lemma afterTickerRun :
  run LabelQuery.syncAndLog afterTicker raceTraceAfterTicker raceState.
Proof.
  unfold raceTraceAfterTicker.
  eapply run_front; [apply step_advance; [done|cbn; intros t [= <-]; lia]|]. cbn.
  eapply run_front; [by eapply step_tick|]. cbn.
  eapply run_front; [by apply step_select_tick|]. cbn.
  eapply run_front; [apply step_advance; [done|cbn; intros t [= <-]; lia]|]. cbn.
  eapply run_front; [by eapply step_tick|]. cbn.
  eapply run_front; [by apply step_stop|]. cbn.
  eapply run_front; [by eapply step_end; [done|vm_compute; reflexivity]|]. cbn.
  apply run_nil.
Qed.

Lemma second_cycle_waits_for_ticker_witness :
  occurrences CycleBegin [CycleBegin; CycleEnd] = 1
  ∧ occurrences CycleEnd [CycleBegin; CycleEnd] = 1
  ∧ occurrences EnvTick [CycleBegin; CycleEnd] = 0
  ∧ occurrences NewTicker [CycleBegin; CycleEnd] = 0
  ∧ occurrences NewTicker raceTraceAfterTicker = 0
  ∧ ticker afterTicker = Some (now afterTicker + tickInterval)%Z
  ∧ (1 ≤ occurrences CycleBegin raceTraceAfterTicker →
     (now afterTicker + tickInterval ≤ now raceState)%Z).
Proof.
  exact (second_cycle_waits_for_ticker LabelQuery.syncAndLog emptyWorld
           [CycleBegin; CycleEnd] beforeTicker afterTicker raceTraceAfterTicker raceState
           firstCycleRun tickerStep afterTickerRun).
Defined.

Lemma sync_warns_once_per_excluded_node_witness :
  ∃ r w',
    LabelQuery.syncNodeEndpoints "kube-system" "kube-scheduler-prometheus-discovery"
      "role=controlplane" exWorld = Some (r, w')
    ∧ logs w'
      = logs exWorld
        ++ (DebugLevel, "starting sync of " +:+ "kube-scheduler-prometheus-discovery")
           :: ((λ n, (WarnLevel,
                      "error getting node address: failed to determine hostname for node ("
                      +:+ Name (node_meta n) +:+ "): host address unknown"))
                 <$> filter hasNoAddress [exNode1; exNode2; exNode3]).
Proof.
  exact (sync_warns_once_per_excluded_node "kube-system"
           "kube-scheduler-prometheus-discovery" "role=controlplane" exWorld
           exService exCluster [exNode1; exNode2; exNode3] exCluster eq_refl eq_refl).
Defined.

Lemma sync_endpoints_calls_address_service_witness :
  ∃ (d : list Event) (ev : Event) service,
    d !! 2 = Some ev
    ∧ endpointsKey ev.1
      = Some ("kube-system", "kube-scheduler-prometheus-discovery")
    ∧ (Services_Get "kube-system" "kube-scheduler-prometheus-discovery"
         (cluster exWorld)).1 = Ok service
    ∧ ("kube-system", "kube-scheduler-prometheus-discovery")
      = (Namespace (svc_meta service), Name (svc_meta service))
    ∧ d !! 0
      = Some (CallServicesGet "kube-system" "kube-scheduler-prometheus-discovery", None)
    ∧ d !! 1 = Some (CallNodesList "role=controlplane", None)
    ∧ 2 ≤ 2.
Proof.
  destruct (sync_endpoints_calls_address_service "kube-system"
              "kube-scheduler-prometheus-discovery" "role=controlplane" exWorld)
    as (r & w' & d & Hrun & Hcalls & Hkey).
  vm_compute in Hrun. injection Hrun as <- <-.
  change (calls exWorld) with (@nil Event) in Hcalls.
  cbn [calls app] in Hcalls. subst d.
  destruct (Hkey 2 _ _ eq_refl eq_refl)
    as (service & Hget & Hk & Hfirst & Hsecond & Hpos).
  match type of Hfirst with ?d !! _ = _ => exists d end.
  eexists _, service. split; [reflexivity|]. done.
Defined.

Lemma validation_counts_separators_witness :
  StaticMapping.checkServices [exRoleBad; exRole] = None
  ∧ StaticMapping.checkServices [exRoleMalformed] ≠ None.
Proof.
  split.
  - apply (proj2 (validation_counts_separators [exRoleBad; exRole])).
    repeat constructor; right; vm_compute; reflexivity.
  - intros Hnone.
    apply (proj1 (validation_counts_separators [exRoleMalformed])) in Hnone.
    inversion Hnone as [|? ? [Hempty|Hone] _]; vm_compute in Hempty || vm_compute in Hone;
      discriminate.
Defined.
